(** * Signature model of litestar: error reporting and schema building

    A shallow embedding of [litestar/_signature/model.py]: the class
    [SignatureModel] with its class methods [_create_exception],
    [_build_error_message], [parse_values_from_connection_kwargs] and
    [create], the module constants [MSGSPEC_CONSTRAINT_FIELDS] and [ERR_RE],
    and the properties of the validation engine that follow from them. *)

From Stdlib Require Import String Ascii ZArith Bool List DecimalString.
From stdpp Require Import base decidable option list gmap strings.

Local Open Scope string_scope.

(** ** Python strings *)

Module PyStr.

(** The line feed, the one character the regular expression dot refuses. *)
Definition LF : ascii := ascii_of_nat 10.

Definition is_LF (c : ascii) : bool := Ascii.eqb c LF.

Fixpoint has_LF (s : string) : bool :=
  match s with
  | EmptyString => false
  | String c s' => is_LF c || has_LF s'
  end.

(** [strip_prefix p s] is the rest of [s] after its prefix [p]. *)
Fixpoint strip_prefix (p s : string) : option string :=
  match p, s with
  | EmptyString, _ => Some s
  | String a p', String b s' =>
      if Ascii.eqb a b then strip_prefix p' s' else None
  | String _ _, EmptyString => None
  end.

(** [strip_suffix q s] is the part of [s] before its suffix [q]. *)
Fixpoint strip_suffix (q s : string) : option string :=
  if String.eqb s q then Some EmptyString
  else match s with
       | EmptyString => None
       | String c s' => option_map (String c) (strip_suffix q s')
       end.

Definition startswith (s p : string) : bool :=
  match strip_prefix p s with Some _ => true | None => false end.

(** [s.split(sep)] for a non-empty separator: the pieces of [s] between the
    occurrences of [sep], found from the left and never overlapping.
    [skip] counts the characters of a separator still to be passed over.
    (Python raises ValueError for an empty separator; the one call site
    passes a literal.) *)
Fixpoint split_from (sep : string) (skip : nat) (s : string) : list string :=
  match s with
  | EmptyString => [EmptyString]
  | String c s' =>
      match skip with
      | S k => split_from sep k s'
      | O =>
          if startswith s sep
          then EmptyString :: split_from sep (String.length sep - 1) s'
          else match split_from sep 0 s' with
               | piece :: pieces => String c piece :: pieces
               | [] => [String c EmptyString]
               end
      end
  end.

Definition split (s sep : string) : list string := split_from sep 0 s.

(** [sep.join(parts)] *)
Fixpoint join (sep : string) (parts : list string) : string :=
  match parts with
  | [] => EmptyString
  | [p] => p
  | p :: ps => p ++ sep ++ join sep ps
  end.

(** [str(n)] for an integer. *)
Definition of_int (n : Z) : string := NilZero.string_of_int (Z.to_int n).

(** Truth value of a string. *)
Definition truthy (s : string) : bool :=
  match s with EmptyString => false | String _ _ => true end.

End PyStr.

(** ** The regular expression [ERR_RE]

    [ERR_RE = re.compile(r"`\$\.(.+)`$")]: a backtick, a dollar sign, a dot,
    then one or more characters other than a line feed (the group), a
    backtick, and the end of the text, where the end may also stand just in
    front of one last line feed.  After the three opening characters the
    closing backtick has one possible position, so the greedy group is all
    that lies between. *)

Definition ERR_RE_group (rest : string) : option string :=
  let checked (g : string) :=
    if PyStr.truthy g && negb (PyStr.has_LF g) then Some g else None in
  match PyStr.strip_suffix "`" rest with
  | Some g => checked g
  | None =>
      match PyStr.strip_suffix (String "`" (String PyStr.LF EmptyString)) rest with
      | Some g => checked g
      | None => None
      end
  end.

(** [ERR_RE.match(s)]: the pattern at the very start of [s]. *)
Definition ERR_RE_match (s : string) : option string :=
  match PyStr.strip_prefix "`$." s with
  | Some rest => ERR_RE_group rest
  | None => None
  end.

(** [ERR_RE.search(s)]: the leftmost position where the pattern matches;
    the result is [match.group(1)]. *)
Fixpoint ERR_RE_search (s : string) : option string :=
  match ERR_RE_match s with
  | Some g => Some g
  | None =>
      match s with
      | EmptyString => None
      | String _ s' => ERR_RE_search s'
      end
  end.

(** ** Python values and dictionaries *)

(** The values the model tells apart: [None], litestar's [Empty] sentinel,
    booleans, integers and strings. *)
Inductive Value : Type :=
| VNone
| VEmpty
| VBool (b : bool)
| VInt (n : Z)
| VStr (s : string).

#[global] Instance Value_eq_dec : EqDecision Value.
Proof. solve_decision. Defined.

(** Truth value of a Python object, as [if x:] and the walrus tests use it.
    [Empty] is a class, and a class is true. *)
Definition truthy (v : Value) : bool :=
  match v with
  | VNone => false
  | VEmpty => true
  | VBool b => b
  | VInt n => negb (n =? 0)%Z
  | VStr s => PyStr.truthy s
  end.

Definition is_None (v : Value) : bool :=
  match v with VNone => true | _ => false end.

(** A [dict] with string keys. *)
Abbreviation dict V := (gmap string V).

(** ** Type expressions and constraint metadata *)

(** [msgspec.Meta] built from [meta_kwargs]: the keyword arguments other
    than [extra], and the [extra] dictionary. *)
Record Meta : Type := mkMeta {
  meta_constraints : dict Value;
  meta_extra : dict Value
}.

#[global] Instance Meta_eq_dec : EqDecision Meta.
Proof. solve_decision. Defined.

(** Annotations: [Any], [NoneType], a class by name, [Union[...]] with its
    arguments, and [Annotated[origin, metadata...]]. *)
#[warnings="-register-all"]
Inductive TypeExpr : Type :=
| TAny
| TNoneType
| TClass (name : string)
| TUnion (args : list TypeExpr)
| TAnnotated (origin : TypeExpr) (metadata : list Meta).

Fixpoint TypeExpr_eqb (a b : TypeExpr) {struct a} : bool :=
  match a, b with
  | TAny, TAny => true
  | TNoneType, TNoneType => true
  | TClass n, TClass m => String.eqb n m
  | TUnion xs, TUnion ys =>
      (fix all2 (xs ys : list TypeExpr) {struct xs} : bool :=
         match xs, ys with
         | [], [] => true
         | x :: xs', y :: ys' => TypeExpr_eqb x y && all2 xs' ys'
         | _, _ => false
         end) xs ys
  | TAnnotated o ms, TAnnotated o' ms' =>
      TypeExpr_eqb o o' && bool_decide (ms = ms')
  | _, _ => false
  end.

(** ** Exceptions and results *)

(** [ErrorMessage], a [TypedDict]: [message] is required, [key] and [source]
    are [NotRequired]. *)
Inductive Source : Type := SrcCookie | SrcBody | SrcHeader | SrcQuery.

Record ErrorMessage : Type := mkErrorMessage {
  message : string;
  key : option string;
  source : option Source
}.

(** The exceptions that leave the methods of the class. *)
Inductive Exception : Type :=
| ValidationException (detail : string) (extra : list ErrorMessage)
| InternalServerException
| ImproperlyConfiguredException (detail : string)
| TypeError (what : string)
| ValueError (what : string)
| OtherException (what : string).

Inductive Result (A : Type) : Type :=
| Return (a : A)
| Raise (e : Exception).

Arguments Return {A} a.
Arguments Raise {A} e.

Definition bind {A B : Type} (r : Result A) (k : A -> Result B) : Result B :=
  match r with
  | Return a => k a
  | Raise e => Raise e
  end.

Notation "'let*' x ':=' r 'in' k" := (bind r (fun x => k))
  (at level 10, x name, r at level 100, k at level 200).

(** ** The [typing] constructors *)

Definition is_TUnion (t : TypeExpr) : bool :=
  match t with TUnion _ => true | _ => false end.

Definition is_NoneType (t : TypeExpr) : bool :=
  match t with TNoneType => true | _ => false end.

(** [typing.get_args]: the arguments of a union, nothing for a plain type. *)
Definition get_args (t : TypeExpr) : list TypeExpr :=
  match t with TUnion args => args | _ => [] end.

(** The members a type stands for: the arguments of a union, the type itself
    otherwise. *)
Definition members (t : TypeExpr) : list TypeExpr :=
  match t with TUnion args => args | _ => [t] end.

(** First occurrences only, in order. *)
Fixpoint remove_dups (ts : list TypeExpr) : list TypeExpr :=
  match ts with
  | [] => []
  | t :: ts' =>
      t :: List.filter (fun u => negb (TypeExpr_eqb t u)) (remove_dups ts')
  end.

(** [Union[args]]: unions among the arguments are flattened, duplicates are
    dropped, a single remaining argument is returned as it is, and no
    argument at all is a TypeError. *)
Definition Union_ (args : list TypeExpr) : Result TypeExpr :=
  match remove_dups (List.flat_map members args) with
  | [] => Raise (TypeError "Cannot take a Union of no types.")
  | [t] => Return t
  | ts => Return (TUnion ts)
  end.

(** [Optional[t]] is [Union[t, None]]. *)
Definition Optional_ (t : TypeExpr) : Result TypeExpr :=
  Union_ [t; TNoneType].

(** [Annotated[t, meta]]; annotating an annotated type extends its
    metadata. *)
Definition Annotated_ (t : TypeExpr) (meta : Meta) : TypeExpr :=
  match t with
  | TAnnotated origin metadata => TAnnotated origin (metadata ++ [meta])
  | _ => TAnnotated t [meta]
  end.

(** Modelled from the spec: [litestar.utils.make_non_optional_union], which
    is not among the sources; it strips the optional wrapper, that is, it
    builds the union of the arguments other than [NoneType]. *)
Definition make_non_optional_union (annotation : TypeExpr) : Result TypeExpr :=
  Union_ (List.filter (fun t => negb (is_NoneType t)) (get_args annotation)).

(** Modelled from the spec: [litestar.utils.typing.unwrap_union], which is
    not among the sources; it lists every member of the union, opening the
    unions found among them. *)
Fixpoint unwrap_union (annotation : TypeExpr) : list TypeExpr :=
  match annotation with
  | TUnion args =>
      List.flat_map
        (fun arg => if is_TUnion arg then unwrap_union arg else [arg]) args
  | _ => []
  end.

(** ** Field definitions *)

(** The keyword-argument definition of a parameter.  [ParameterKwarg] and
    [BodyKwarg] are the two [KwargDefinition] classes; each is a dataclass,
    kept here as the mapping of its fields to their values (a field that is
    not listed holds its default, [None]).  [DependencyKwarg] is a class of
    its own with the flag [skip_validation]. *)
Inductive KwargKind : Type :=
| NoKwarg
| ParameterKwarg (attrs : dict Value)
| BodyKwarg (attrs : dict Value)
| DependencyKwarg (skip_validation : bool).

(** Attribute access on a dataclass instance. *)
Definition getattr (attrs : dict Value) (name : string) : Value :=
  default VNone (attrs !! name).

(** [isinstance(kwarg_definition, KwargDefinition)], with the instance's
    fields when it holds. *)
Definition as_KwargDefinition (k : KwargKind) : option (dict Value) :=
  match k with
  | ParameterKwarg attrs | BodyKwarg attrs => Some attrs
  | NoKwarg | DependencyKwarg _ => None
  end.

(** The default of a struct field: [NODEFAULT] marks a mandatory field. *)
Inductive Default : Type :=
| NODEFAULT
| DefaultValue (v : Value).

(** [FieldDefinition], read-only here. *)
Record FieldDefinition : Type := mkFieldDefinition {
  name : string;
  annotation : TypeExpr;
  is_optional : bool;
  is_union : bool;
  has_default : bool;
  default_value : Value;
  kwarg_definition : KwargKind
}.

(** [ParsedSignature]: [parameters] is a dictionary from parameter names to
    field definitions, kept as its items in insertion order. *)
Record ParsedSignature : Type := mkParsedSignature {
  parameters : list (string * FieldDefinition);
  return_type : FieldDefinition
}.

(** The callable, as far as [create] looks at it: [__name__] and
    [__module__], each possibly missing. *)
Record AnyCallable : Type := mkAnyCallable {
  dunder_name : option string;
  dunder_module : option string
}.

(** ** The class *)

(** A signature model class: the struct fields given to [defstruct] and the
    three class variables. *)
Record SignatureModel : Type := mkSignatureModel {
  struct_name : string;
  struct_fields : list (string * TypeExpr * Default);
  struct_module : option string;
  return_annotation : TypeExpr;
  dependency_name_set : gset string;
  fields : dict FieldDefinition
}.

(** The connection, as far as the class reads it: [method] (missing on a
    connection that is not a request), [url] as it prints, and the names
    found in [query_params]. *)
Record ASGIConnection : Type := mkASGIConnection {
  method : option string;
  url : string;
  query_params : gset string
}.

(** ** Constants of the module *)

Definition MSGSPEC_CONSTRAINT_FIELDS : list string :=
  ["gt"; "ge"; "lt"; "le"; "multiple_of"; "pattern"; "min_length"; "max_length"].

(** ** Failures of the decode primitive *)

(** One entry of [PydanticValidationError.errors()]: the location, whose
    items are names or indices, and the message. *)
Inductive LocItem : Type :=
| LocName (s : string)
| LocIndex (i : Z).

Definition str_loc (l : LocItem) : string :=
  match l with
  | LocName s => s
  | LocIndex i => PyStr.of_int i
  end.

Record PydanticError : Type := mkPydanticError {
  loc : list LocItem;
  msg : string
}.

(** What [convert(kwargs, cls, strict=False, dec_hook=dec_hook)] does: it
    returns an instance of the struct (its fields with their values), or
    raises one of the two validation errors the method catches, or raises
    something else. *)
Inductive ConvertOutcome : Type :=
| Converted (instance : list (string * Value))
| RaisesPydanticValidationError (errors : list PydanticError)
| RaisesValidationError (text : string)
| RaisesOther (e : Exception).

(** ** Calls on the shared class

    A class method runs against the class object, which every request of the
    handler shares.  A call takes the class as it stands and gives back its
    result together with the class as the call leaves it. *)

Definition Call (A : Type) : Type := SignatureModel -> Result A * SignatureModel.

Definition call_return {A : Type} (a : A) : Call A := fun cls => (Return a, cls).

Definition call_raise {A : Type} (e : Exception) : Call A := fun cls => (Raise e, cls).

(** The class the method is called on, [cls]. *)
Definition call_self : Call SignatureModel := fun cls => (Return cls, cls).

(** Reading a class variable. *)
Definition call_read {A : Type} (attr : SignatureModel -> A) : Call A :=
  fun cls => (Return (attr cls), cls).

Definition call_bind {A B : Type} (c : Call A) (k : A -> Call B) : Call B :=
  fun cls =>
    match c cls with
    | (Return a, cls') => k a cls'
    | (Raise e, cls') => (Raise e, cls')
    end.

Notation "'run' x ':=' c 'in' k" := (call_bind c (fun x => k))
  (at level 10, x name, c at level 100, k at level 200).

Section Errors.

(** How [ScopeType.WEBSOCKET] prints inside the f-string; the enumeration
    is declared in [litestar.enums]. *)
Variable ScopeType_WEBSOCKET : string.

(** The decode primitive of msgspec. *)
Variable convert : gmap string Value -> SignatureModel -> ConvertOutcome.

(** The test of the list comprehension in [_create_exception]. *)
Definition is_client_error (dependency_names : gset string) (err_message : ErrorMessage) : bool :=
  match key err_message with
  | Some k => negb (bool_decide (k ∈ dependency_names))
  | None => false
  end
  || match key err_message with Some _ => false | None => true end.

Definition _create_exception (connection : ASGIConnection)
    (messages : list ErrorMessage) : Call Exception :=
  let method_ :=
    match method connection with
    | Some m => m
    | None => ScopeType_WEBSOCKET
    end in
  run dependency_names := call_read dependency_name_set in
  let client_errors := List.filter (is_client_error dependency_names) messages in
  match client_errors with
  | _ :: _ =>
      call_return
        (ValidationException
           ("Validation failed for " ++ method_ ++ " " ++ url connection)
           client_errors)
  | [] => call_return InternalServerException
  end.

Definition _build_error_message (keys : list string) (exc_msg : string)
    (connection : ASGIConnection) : Call ErrorMessage :=
  let message_ :=
    {| message := List.hd EmptyString (PyStr.split exc_msg " - ");
       key := None; source := None |} in
  match keys with
  | [] => call_return message_
  | _ :: _ =>
      let key_ := PyStr.join "." keys in
      let message_ :=
        {| message := message message_; key := Some key_;
           source := source message_ |} in
      if bool_decide (key_ ∈ query_params connection) then
        call_return
          {| message := message message_; key := key message_;
             source := Some SrcQuery |}
      else
        run fields_ := call_read fields in
        match fields_ !! key_ with
        | Some field =>
            match kwarg_definition field with
            | ParameterKwarg attrs =>
                let source_ :=
                  if truthy (getattr attrs "cookie") then SrcCookie
                  else if truthy (getattr attrs "header") then SrcHeader
                  else SrcQuery in
                call_return
                  {| message := message message_; key := key message_;
                     source := Some source_ |}
            | _ => call_return message_
            end
        | None => call_return message_
        end
  end.

(** [asdict(self)] *)
Definition to_dict (self : list (string * Value)) : gmap string Value :=
  list_to_map self.

(** The loop over [e.errors()], appending to [messages]. *)
Fixpoint build_messages (connection : ASGIConnection)
    (errors : list PydanticError) (messages : list ErrorMessage)
    : Call (list ErrorMessage) :=
  match errors with
  | [] => call_return messages
  | exc :: errors' =>
      let keys := List.map str_loc (loc exc) in
      run message_ := _build_error_message keys (msg exc) connection in
      build_messages connection errors' (messages ++ [message_])%list
  end.

Definition parse_values_from_connection_kwargs (connection : ASGIConnection)
    (kwargs : gmap string Value) : Call (gmap string Value) :=
  let messages : list ErrorMessage := [] in
  run cls := call_self in
  match convert kwargs cls with
  | Converted instance => call_return (to_dict instance)
  | RaisesPydanticValidationError errors =>
      run messages := build_messages connection errors messages in
      run e := _create_exception connection messages in
      call_raise e
  | RaisesValidationError text =>
      let keys :=
        [match ERR_RE_search text with Some g => g | None => "n/a" end] in
      run message_ := _build_error_message keys text connection in
      let messages := (messages ++ [message_])%list in
      run e := _create_exception connection messages in
      call_raise e
  | RaisesOther e => call_raise e
  end.

End Errors.

(** ** Building the class *)

(** The dictionary [meta_kwargs]: it starts as [{"extra": {}}]; the entry
    under ["extra"] is kept in [kw_extra], every other entry in [kw_args]. *)
Record MetaKwargs : Type := mkMetaKwargs {
  kw_args : dict Value;
  kw_extra : dict Value
}.

(** The [Meta] object that holds the given arguments: what the call of
    [Meta] gives when msgspec accepts them. *)
Definition Meta_object (meta_kwargs : MetaKwargs) : Meta :=
  {| meta_constraints := kw_args meta_kwargs; meta_extra := kw_extra meta_kwargs |}.

(** Modelled from the spec: [litestar.utils.dataclass.simple_asdict], which
    is not among the sources; it converts the constraint mapping to a
    dictionary of its fields, and with [exclude_empty] leaves out the fields
    that hold [Empty]. *)
Definition simple_asdict (obj : dict Value) (exclude_empty : bool) : dict Value :=
  if exclude_empty then filter (fun kv => kv.2 <> VEmpty) obj else obj.

(** [d.pop(k, None)]: the value and the dictionary without the key. *)
Definition pop (k : string) (d : dict Value) : Value * dict Value :=
  (default VNone (d !! k), delete k d).

(** [meta_kwargs.keys() & MSGSPEC_CONSTRAINT_FIELDS], as a truth value. *)
Definition has_msgspec_constraint (meta_kwargs : MetaKwargs) : bool :=
  List.existsb (fun k => bool_decide (is_Some (kw_args meta_kwargs !! k)))
    MSGSPEC_CONSTRAINT_FIELDS.

Section Builder.

(** [hasattr(Meta, k)]: the attributes of msgspec's class. *)
Variable Meta_hasattr : string -> bool.

(** What msgspec raises when [Meta] is called with the given keyword
    arguments, if it raises: it checks the types and the ranges of the
    arguments, compiles the pattern and refuses arguments that exclude one
    another. *)
Variable Meta_refuses : MetaKwargs -> option Exception.

(** The two helpers of [litestar._signature.utils]: the first checks the
    dependency names against the signature and may reject them, the second
    gives the annotations that replace declared ones. *)
Variable validate_signature_dependencies :
  gset string -> string -> ParsedSignature -> Result (gset string).
Variable create_type_overrides : ParsedSignature -> bool -> dict TypeExpr.

(** [Meta] called with [meta_kwargs] as keyword arguments: the exception of
    msgspec, or the object that holds the arguments. *)
Definition Meta_ (meta_kwargs : MetaKwargs) : Result Meta :=
  match Meta_refuses meta_kwargs with
  | Some e => Raise e
  | None => Return (Meta_object meta_kwargs)
  end.

(** The test of the loop, [hasattr(Meta, k) and v is not None]: the item
    becomes an argument of [Meta] itself. *)
Definition goes_to_Meta (k : string) (v : Value) : bool :=
  Meta_hasattr k && negb (is_None v).

(** One round of the loop over [kwarg_definition.items()].  A value other
    than [None] under the key ["extra"], when [Meta] has that attribute,
    takes the place of the dictionary of extras; none of the values is a
    dictionary, so either a later round fails to store into it or [Meta]
    refuses it: a TypeError in both cases. *)
Definition meta_kwargs_step (k : string) (v : Value)
    (acc : Result MetaKwargs) : Result MetaKwargs :=
  let* meta_kwargs := acc in
  if goes_to_Meta k v then
    if String.eqb k "extra"
    then Raise (TypeError "extra must be a dict")
    else Return {| kw_args := <[k := v]> (kw_args meta_kwargs);
                   kw_extra := kw_extra meta_kwargs |}
  else Return {| kw_args := kw_args meta_kwargs;
                 kw_extra := <[k := v]> (kw_extra meta_kwargs) |}.

(** From [meta_kwargs = {"extra": {}}] to the end of the loop. *)
Definition build_meta_kwargs (kwarg_attrs : dict Value) : Result MetaKwargs :=
  let meta_kwargs := {| kw_args := ∅; kw_extra := ∅ |} in
  let kwarg_definition := simple_asdict kwarg_attrs true in
  let '(min_items, kwarg_definition) := pop "min_items" kwarg_definition in
  let meta_kwargs :=
    if truthy min_items
    then {| kw_args := <["min_length" := min_items]> (kw_args meta_kwargs);
            kw_extra := kw_extra meta_kwargs |}
    else meta_kwargs in
  let '(max_items, kwarg_definition) := pop "max_items" kwarg_definition in
  let meta_kwargs :=
    if truthy max_items
    then {| kw_args := <["max_length" := max_items]> (kw_args meta_kwargs);
            kw_extra := kw_extra meta_kwargs |}
    else meta_kwargs in
  map_fold meta_kwargs_step (Return meta_kwargs) kwarg_definition.

(** The body of the loop over the parameters, up to the annotation. *)
Definition field_annotation (type_overrides : dict TypeExpr)
    (field_definition : FieldDefinition) : Result TypeExpr :=
  let annotation_ :=
    default (annotation field_definition)
      (type_overrides !! name field_definition) in
  match as_KwargDefinition (kwarg_definition field_definition) with
  | Some kwarg_attrs =>
      let* meta_kwargs := build_meta_kwargs kwarg_attrs in
      let* meta := Meta_ meta_kwargs in
      if is_optional field_definition then
        let* inner := make_non_optional_union annotation_ in
        Optional_ (Annotated_ inner meta)
      else if is_union field_definition && has_msgspec_constraint meta_kwargs then
        Union_ (List.map (fun inner_type => Annotated_ inner_type meta)
                  (unwrap_union annotation_))
      else Return (Annotated_ annotation_ meta)
  | None =>
      match kwarg_definition field_definition with
      | DependencyKwarg true => Return TAny
      | _ => Return annotation_
      end
  end.

(** The body of the loop: the triple appended to [struct_fields]. *)
Definition struct_field (type_overrides : dict TypeExpr)
    (field_definition : FieldDefinition) : Result (string * TypeExpr * Default) :=
  let* annotation_ := field_annotation type_overrides field_definition in
  let default_ :=
    if has_default field_definition
    then DefaultValue (default_value field_definition)
    else NODEFAULT in
  Return (name field_definition, annotation_, default_).

(** The loop over [parsed_signature.parameters.values()]. *)
Fixpoint build_struct_fields (type_overrides : dict TypeExpr)
    (field_definitions : list FieldDefinition)
    (struct_fields_ : list (string * TypeExpr * Default))
    : Result (list (string * TypeExpr * Default)) :=
  match field_definitions with
  | [] => Return struct_fields_
  | field_definition :: rest =>
      let* triple := struct_field type_overrides field_definition in
      build_struct_fields type_overrides rest (struct_fields_ ++ [triple])%list
  end.

Definition create (dependency_name_set_ : gset string) (fn : AnyCallable)
    (parsed_signature : ParsedSignature) (has_data_dto : bool)
    : Result SignatureModel :=
  let fn_name :=
    match dunder_name fn with
    | Some n =>
        if PyStr.truthy n && negb (String.eqb n "<lambda>") then n
        else "anonymous"
    | None => "anonymous"
    end in
  let* dependency_names :=
    validate_signature_dependencies dependency_name_set_ fn_name parsed_signature in
  let type_overrides := create_type_overrides parsed_signature has_data_dto in
  let* struct_fields_ :=
    build_struct_fields type_overrides
      (List.map snd (parameters parsed_signature)) [] in
  Return {| struct_name := fn_name ++ "_signature_model";
            struct_fields := struct_fields_;
            struct_module := dunder_module fn;
            return_annotation := annotation (return_type parsed_signature);
            dependency_name_set := dependency_names;
            fields := list_to_map (parameters parsed_signature) |}.

End Builder.

(** ** Notions used in the statements *)

(** [sep] occurs in [s] right after [a], and nowhere further to the left. *)
Definition first_split (s sep a b : string) : Prop :=
  s = a ++ sep ++ b /\
  forall a' b', s = a' ++ sep ++ b' -> String.length a <= String.length a'.

(** The text ends in a path fragment: a backtick, a dollar sign, a dot, the
    path [g] (not empty, no line feed), a backtick, and then nothing or one
    line feed. *)
Definition path_suffix (text g : string) : Prop :=
  exists before tail,
    text = before ++ "`$." ++ g ++ "`" ++ tail /\
    (tail = EmptyString \/ tail = String PyStr.LF EmptyString) /\
    g <> EmptyString /\
    PyStr.has_LF g = false.

(** A message that names a field supplied by dependency injection. *)
Definition names_dependency (dependency_names : gset string) (m : ErrorMessage) : Prop :=
  exists k, key m = Some k /\ k ∈ dependency_names.

(** A message the client gets to see: its key is not a dependency name, or
    it has no key at all. *)
Definition client_visible (dependency_names : gset string) (m : ErrorMessage) : Prop :=
  (exists k, key m = Some k /\ k ∉ dependency_names) \/ key m = None.

#[global] Instance client_visible_dec dependency_names m :
  Decision (client_visible dependency_names m).
Proof.
  unfold client_visible. destruct (key m) as [k|].
  - destruct (decide (k ∈ dependency_names)) as [Hin|Hout].
    + right. intros [(k' & [= <-] & Hk')|Hnone]; [contradiction|discriminate].
    + left. left. exists k. split; [reflexivity|assumption].
  - left. right. reflexivity.
Defined.

(** The flags of a parameter definition, as the [if] tests read them. *)
Definition cookie_flagged (attrs : gmap string Value) : Prop :=
  truthy (getattr attrs "cookie") = true.

Definition header_flagged (attrs : gmap string Value) : Prop :=
  truthy (getattr attrs "header") = true.

(** The source the aggregator attributes to a key: the query string when
    the connection has a query parameter of that name; otherwise, for a
    field declared with a parameter definition, the cookie, else the header,
    else the query string; otherwise none. *)
Definition attributed_source (connection : ASGIConnection) (cls : SignatureModel)
    (key_ : string) : option Source :=
  if bool_decide (key_ ∈ query_params connection) then Some SrcQuery
  else match fields cls !! key_ with
       | Some field =>
           match kwarg_definition field with
           | ParameterKwarg attrs =>
               Some (if truthy (getattr attrs "cookie") then SrcCookie
                     else if truthy (getattr attrs "header") then SrcHeader
                     else SrcQuery)
           | _ => None
           end
       | None => None
       end.

(** The summary of a client error. *)
Definition validation_summary (websocket : string) (connection : ASGIConnection) : string :=
  "Validation failed for "
  ++ match method connection with Some m => m | None => websocket end
  ++ " " ++ url connection.

(** The outcome of a call. *)
Definition outcome {A : Type} (c : Call A) (cls : SignatureModel) : Result A := fst (c cls).

(** A type carries [meta] when it is annotated and [meta] is among its
    metadata. *)
Definition carries (meta : Meta) (t : TypeExpr) : Prop :=
  exists origin metadata, t = TAnnotated origin metadata /\ meta ∈ metadata.

(** A union as [typing] keeps it: no argument is itself a union. *)
Definition flat_union (args : list TypeExpr) : Prop :=
  Forall (fun t => is_TUnion t = false) args.

(** A mapping that holds nothing of its own under [k]: the field is missing
    or holds [None]. *)
Definition unset (attrs : gmap string Value) (k : string) : Prop :=
  attrs !! k = None \/ attrs !! k = Some VNone.

(** ** Sample data for the examples *)

(** The attributes of [msgspec.Meta]. *)
Definition msgspec_Meta_attrs : list string :=
  ["gt"; "ge"; "lt"; "le"; "multiple_of"; "pattern"; "min_length"; "max_length";
   "tz"; "title"; "description"; "examples"; "extra_json_schema"; "extra"].

Definition msgspec_Meta_hasattr (k : string) : bool :=
  List.existsb (String.eqb k) msgspec_Meta_attrs.

(** Refusals of [msgspec.Meta], as far as the examples go: [gt] together
    with [ge], [lt] together with [le], and a length that is no integer or
    is negative. *)
Definition refused_length (meta_kwargs : MetaKwargs) (k : string) : option Exception :=
  match kw_args meta_kwargs !! k with
  | None => None
  | Some (VInt n) =>
      if (n <? 0)%Z then Some (ValueError ("`" ++ k ++ "` must be >= 0")) else None
  | Some _ => Some (TypeError ("`" ++ k ++ "` must be an int"))
  end.

Definition msgspec_Meta_refuses (meta_kwargs : MetaKwargs) : option Exception :=
  let given k := bool_decide (is_Some (kw_args meta_kwargs !! k)) in
  if given "gt" && given "ge"
  then Some (ValueError "Cannot specify both `gt` and `ge`")
  else if given "lt" && given "le"
  then Some (ValueError "Cannot specify both `lt` and `le`")
  else match refused_length meta_kwargs "min_length" with
       | Some e => Some e
       | None => refused_length meta_kwargs "max_length"
       end.

(** A decode check over the plain classes: [Any] takes every value, [int]
    and [str] take their own, a union takes what a member takes. *)
Fixpoint sample_accepts (t : TypeExpr) (v : Value) : bool :=
  match t with
  | TAny => true
  | TNoneType => is_None v
  | TClass n =>
      match v with
      | VInt _ => String.eqb n "int"
      | VStr _ => String.eqb n "str"
      | VBool _ => String.eqb n "bool"
      | _ => false
      end
  | TUnion args => List.existsb (fun u => sample_accepts u v) args
  | TAnnotated origin _ => sample_accepts origin v
  end.

Definition sample_field (n : string) (t : TypeExpr) (k : KwargKind) : FieldDefinition :=
  {| name := n; annotation := t; is_optional := false; is_union := false;
     has_default := false; default_value := VEmpty; kwarg_definition := k |}.

(** A handler with an injected [db] and the parameters [limit] (query),
    [token] (cookie) and [page]. *)
Definition sample_model : SignatureModel :=
  {| struct_name := "handler_signature_model";
     struct_fields := [];
     struct_module := None;
     return_annotation := TNoneType;
     dependency_name_set := {["db"]};
     fields :=
       list_to_map
         [("db", sample_field "db" (TClass "Database") (DependencyKwarg true));
          ("limit", sample_field "limit" (TClass "int") (ParameterKwarg ∅));
          ("token", sample_field "token" (TClass "str")
                      (ParameterKwarg {["cookie" := VStr "token"]}));
          ("page", sample_field "page" (TClass "int") NoKwarg)] |}.

Definition sample_request : ASGIConnection :=
  {| method := Some "GET"; url := "http://testserver/items";
     query_params := {["page"]} ∪ {["token"]} |}.

Definition db_message : ErrorMessage :=
  {| message := "Expected `Database`, got `str`"; key := Some "db"; source := None |}.

Definition limit_message : ErrorMessage :=
  {| message := "Expected `int`, got `str`"; key := Some "limit";
     source := Some SrcQuery |}.

Definition keyless_message : ErrorMessage :=
  {| message := "Expected `int`, got `str`"; key := None; source := None |}.

(** A failure text of msgspec that names no path, and one that does. *)
Definition no_path_text : string := "Object missing required field `limit`".

Definition path_text : string := "Expected `int`, got `str` - at `$.limit`".

(** A decode primitive that fails with the given text. *)
Definition failing_convert (text : string)
    : gmap string Value -> SignatureModel -> ConvertOutcome :=
  fun _ _ => RaisesValidationError text.

(** [value: Union[str, int] = Parameter(max_length=3)] *)
Definition union_field : FieldDefinition :=
  {| name := "value"; annotation := TUnion [TClass "str"; TClass "int"];
     is_optional := false; is_union := true;
     has_default := false; default_value := VEmpty;
     kwarg_definition := ParameterKwarg {["max_length" := VInt 3]} |}.

(** [value: Optional[Union[str, bytes]] = Parameter(max_length=3)] *)
Definition optional_field : FieldDefinition :=
  {| name := "value";
     annotation := TUnion [TClass "str"; TClass "bytes"; TNoneType];
     is_optional := true; is_union := true;
     has_default := true; default_value := VNone;
     kwarg_definition := ParameterKwarg {["max_length" := VInt 3]} |}.

Definition max_length_3 : MetaKwargs :=
  {| kw_args := {["max_length" := VInt 3]}; kw_extra := ∅ |}.

(** [Parameter(min_items=2, min_length=5)] and [Parameter(max_items=0)] *)
Definition both_lengths : gmap string Value :=
  {["min_items" := VInt 2; "min_length" := VInt 5]}.

Definition at_most_zero_items : gmap string Value :=
  {["max_items" := VInt 0]}.

Definition at_least_two_items : gmap string Value :=
  {["min_items" := VInt 2; "max_items" := VInt 7; "gt" := VNone]}.

(** [def handler(db: int = Dependency(skip_validation=True), limit: int)] *)
Definition db_field : FieldDefinition :=
  sample_field "db" (TClass "int") (DependencyKwarg true).

Definition sample_signature : ParsedSignature :=
  {| parameters :=
       [("db", db_field);
        ("limit", sample_field "limit" (TClass "int") (ParameterKwarg ∅))];
     return_type := sample_field "return" TNoneType NoKwarg |}.

Definition sample_callable : AnyCallable :=
  {| dunder_name := Some "handler"; dunder_module := Some "app" |}.

(** Helpers that accept every dependency set and override nothing. *)
Definition accept_dependencies (dependency_names : gset string) (fn_name : string)
    (parsed_signature : ParsedSignature) : Result (gset string) :=
  Return dependency_names.

Definition no_overrides (parsed_signature : ParsedSignature) (has_data_dto : bool)
    : gmap string TypeExpr := ∅.

(** ** Notions for the further properties *)

(** The message the aggregator builds for a path and a raw text. *)
Definition error_message_for (connection : ASGIConnection) (cls : SignatureModel)
    (keys : list string) (exc_msg : string) : ErrorMessage :=
  {| message := List.hd EmptyString (PyStr.split exc_msg " - ");
     key := match keys with [] => None | _ :: _ => Some (PyStr.join "." keys) end;
     source :=
       match keys with
       | [] => None
       | _ :: _ => attributed_source connection cls (PyStr.join "." keys)
       end |}.

(** The message built for one entry of a multi-error failure. *)
Definition pydantic_message (connection : ASGIConnection) (cls : SignatureModel)
    (exc : PydanticError) : ErrorMessage :=
  error_message_for connection cls (List.map str_loc (loc exc)) (msg exc).

(** The message built for a single-message failure: its path is the one
    extracted from the text, or ["n/a"]. *)
Definition single_message (connection : ASGIConnection) (cls : SignatureModel)
    (text : string) : ErrorMessage :=
  error_message_for connection cls
    [match ERR_RE_search text with Some g => g | None => "n/a" end] text.

(** The exception a list of messages is classified as: the
    InternalServerException when no message is left for the client, the
    ValidationException with the messages left otherwise. *)
Definition classified (websocket : string) (connection : ASGIConnection)
    (cls : SignatureModel) (messages : list ErrorMessage) : Exception :=
  match filter (client_visible (dependency_name_set cls)) messages with
  | [] => InternalServerException
  | (_ :: _) as detail =>
      ValidationException (validation_summary websocket connection) detail
  end.

(** The value [pop] takes out of the mapping for [k]. *)
Definition popped (attrs : gmap string Value) (k : string) : Value :=
  default VNone (simple_asdict attrs true !! k).

(** What the two walrus tests write into [meta_kwargs]. *)
Definition renamed (attrs : gmap string Value) (k : string) : option Value :=
  if String.eqb k "max_length" then
    if truthy (popped attrs "max_items") then Some (popped attrs "max_items") else None
  else if String.eqb k "min_length" then
    if truthy (popped attrs "min_items") then Some (popped attrs "min_items") else None
  else None.

(** The items the loop goes over. *)
Definition remaining (attrs : gmap string Value) (k : string) : option Value :=
  if String.eqb k "min_items" || String.eqb k "max_items" then None
  else simple_asdict attrs true !! k.

(** The default a struct field gets. *)
Definition field_default (field_definition : FieldDefinition) : Default :=
  if has_default field_definition
  then DefaultValue (default_value field_definition)
  else NODEFAULT.

(** A decode primitive that fails with the given list of errors, and a
    list with an error on the injected [db], one on [limit] and one without
    location. *)
Definition failing_with_errors (errors : list PydanticError)
    : gmap string Value -> SignatureModel -> ConvertOutcome :=
  fun _ _ => RaisesPydanticValidationError errors.

Definition unlocated_error : PydanticError :=
  {| loc := []; msg := "value too short - ensure this value has 3 items" |}.

Definition sample_errors : list PydanticError :=
  [{| loc := [LocName "db"]; msg := "value is not a valid integer" |};
   {| loc := [LocName "limit"]; msg := "value is not a valid integer" |};
   unlocated_error].

(** A length of two items at least, with bounds that msgspec refuses. *)
Definition items_with_conflicting_bounds : gmap string Value :=
  {["min_items" := VInt 2; "gt" := VInt 1; "ge" := VInt 1]}.

(** [value: Union[int, float] = Parameter(gt=1, ge=1)], which msgspec
    refuses, and a handler with that parameter. *)
Definition conflicting_bounds : gmap string Value :=
  {["gt" := VInt 1; "ge" := VInt 1]}.

Definition conflicting_kwargs : MetaKwargs :=
  {| kw_args := conflicting_bounds; kw_extra := ∅ |}.

Definition conflicting_field : FieldDefinition :=
  {| name := "value"; annotation := TUnion [TClass "int"; TClass "float"];
     is_optional := false; is_union := true;
     has_default := false; default_value := VEmpty;
     kwarg_definition := ParameterKwarg conflicting_bounds |}.

Definition conflicting_signature : ParsedSignature :=
  {| parameters := [("value", conflicting_field)];
     return_type := sample_field "return" TNoneType NoKwarg |}.

(** [Parameter(title="Limit", gt=0, required=None)] *)
Definition titled_positive : gmap string Value :=
  {["title" := VStr "Limit"; "gt" := VInt 0; "required" := VNone]}.

(** * Properties *)

(** ** Strings *)

Section StringFacts.

Lemma strip_prefix_Some p : forall s r,
  PyStr.strip_prefix p s = Some r <-> s = p ++ r.
Proof.
  induction p as [|a p IH]; intros s r; simpl.
  - split; [intros [= ->]; reflexivity | intros ->; reflexivity].
  - destruct s as [|b s]; [split; discriminate|].
    destruct (Ascii.eqb_spec a b) as [->|Hne].
    + rewrite IH. split; [intros ->; reflexivity | intros [= ->]; reflexivity].
    + split; [discriminate | intros [= ? ?]; congruence].
Qed.

Lemma startswith_true s p :
  PyStr.startswith s p = true <-> exists r, s = p ++ r.
Proof.
  unfold PyStr.startswith.
  destruct (PyStr.strip_prefix p s) as [r|] eqn:E.
  - apply strip_prefix_Some in E. split; eauto.
  - split; [discriminate|].
    intros [r Hr]. apply strip_prefix_Some in Hr. congruence.
Qed.

(** [split] always gives at least one piece, so [[0]] never fails. *)
Lemma split_from_nonempty sep s : forall skip, PyStr.split_from sep skip s <> [].
Proof.
  induction s as [|c s IH]; intros skip; simpl; [discriminate|].
  destruct skip; [|apply IH].
  destruct (PyStr.startswith _ _); [discriminate|].
  destruct (PyStr.split_from sep 0 s); discriminate.
Qed.

(** The first piece ends where the separator first occurs. *)
Lemma split_head_first c0 sep0 s : forall a b,
  first_split s (String c0 sep0) a b ->
  List.hd EmptyString (PyStr.split s (String c0 sep0)) = a.
Proof.
  unfold PyStr.split. set (sep := String c0 sep0).
  induction s as [|c s IH]; intros a b [Hs Hmin].
  - destruct a; discriminate.
  - simpl. destruct (PyStr.startswith (String c s) sep) eqn:E.
    + apply startswith_true in E as [r Hr].
      specialize (Hmin EmptyString r Hr).
      destruct a; [reflexivity|simpl in Hmin; lia].
    + destruct a as [|c' a].
      { assert (PyStr.startswith (String c s) sep = true)
          by (apply startswith_true; eauto).
        congruence. }
      simpl in Hs. injection Hs as -> Hs.
      pose proof (split_from_nonempty sep s 0) as Hne.
      specialize (IH a b).
      destruct (PyStr.split_from sep 0 s) as [|p ps]; [contradiction|].
      simpl in *. f_equal. apply IH. split; [assumption|].
      intros a' b' H'. specialize (Hmin (String c' a') b'). simpl in Hmin.
      rewrite H' in Hmin. specialize (Hmin eq_refl). lia.
Qed.

(** Without the separator there is one piece, the text itself. *)
Lemma split_absent c0 sep0 s :
  (forall a b, s <> a ++ String c0 sep0 ++ b) ->
  PyStr.split s (String c0 sep0) = [s].
Proof.
  unfold PyStr.split. set (sep := String c0 sep0).
  induction s as [|c s IH]; intros Hno; [reflexivity|].
  simpl. destruct (PyStr.startswith (String c s) sep) eqn:E.
  - apply startswith_true in E as [r Hr].
    exfalso. apply (Hno EmptyString r). exact Hr.
  - rewrite IH; [reflexivity|].
    intros a b ->. apply (Hno (String c a) b). reflexivity.
Qed.

End StringFacts.

(** ** The regular expression *)

Section RegexFacts.

Lemma append_cons c (a b : string) : String c a ++ b = String c (a ++ b).
Proof. reflexivity. Qed.

Lemma append_nil (b : string) : "" ++ b = b.
Proof. reflexivity. Qed.

Lemma append_assoc (a b c : string) : (a ++ b) ++ c = a ++ b ++ c.
Proof.
  induction a as [|x a IH]; [reflexivity|].
  rewrite !append_cons, IH. reflexivity.
Qed.

Lemma length_append (a b : string) :
  String.length (a ++ b) = String.length a + String.length b.
Proof.
  induction a as [|x a IH]; [reflexivity|].
  rewrite append_cons. simpl. rewrite IH. reflexivity.
Qed.

Lemma eqb_append_self_false c p q : String.eqb (String c p ++ q) q = false.
Proof.
  apply String.eqb_neq. intros H. apply (f_equal String.length) in H.
  rewrite length_append in H. simpl in H. lia.
Qed.

Lemma strip_suffix_cons q c s :
  PyStr.strip_suffix q (String c s) =
  if String.eqb (String c s) q then Some EmptyString
  else option_map (String c) (PyStr.strip_suffix q s).
Proof. reflexivity. Qed.

Lemma strip_suffix_append p q : PyStr.strip_suffix q (p ++ q) = Some p.
Proof.
  induction p as [|c p IH].
  - rewrite append_nil.
    destruct q; simpl; rewrite ?String.eqb_refl, ?Ascii.eqb_refl; reflexivity.
  - pose proof (eqb_append_self_false c p q) as H.
    rewrite append_cons in *. rewrite strip_suffix_cons, H, IH. reflexivity.
Qed.

Lemma strip_suffix_Some q s : forall p, PyStr.strip_suffix q s = Some p -> s = p ++ q.
Proof.
  induction s as [|c s IH]; intros p.
  - simpl. destruct q; [intros [= <-]; reflexivity|discriminate].
  - rewrite strip_suffix_cons. destruct (String.eqb (String c s) q) eqn:E.
    + intros [= <-]. apply String.eqb_eq in E. exact E.
    + destruct (PyStr.strip_suffix q s) as [p'|]; [|discriminate].
      intros [= <-]. rewrite append_cons. f_equal. apply IH. reflexivity.
Qed.

Lemma strip_suffix_backtick_LF g :
  PyStr.strip_suffix "`" (g ++ "`" ++ String PyStr.LF EmptyString) = None.
Proof.
  destruct (PyStr.strip_suffix "`" (g ++ "`" ++ String PyStr.LF EmptyString)) as [p|] eqn:E; [|reflexivity].
  apply strip_suffix_Some in E. exfalso.
  assert (H : forall a b : string, forall x y,
             a ++ String x "" = b ++ String y "" -> x = y).
  { induction a as [|c a IH]; intros [|d b] x y;
      rewrite ?append_nil, ?append_cons.
    - congruence.
    - intros [= _ H]. destruct b; discriminate H.
    - intros [= _ H]. destruct a; discriminate H.
    - intros [= _ H]. eapply IH; eassumption. }
  change (g ++ "`" ++ String PyStr.LF EmptyString) with (g ++ String "`" (String PyStr.LF "")) in E.
  change (String "`" (String PyStr.LF "")) with ("`" ++ String PyStr.LF "") in E.
  rewrite <- append_assoc in E. apply H in E. discriminate E.
Qed.

Lemma ERR_RE_group_checked (p g : string) :
  (if PyStr.truthy p && negb (PyStr.has_LF p) then Some p else None) = Some g <->
  p = g /\ g <> EmptyString /\ PyStr.has_LF g = false.
Proof.
  destruct p as [|c p]; simpl.
  - split; [discriminate|]. intros (<- & Hne & _). contradiction.
  - destruct (PyStr.is_LF c || PyStr.has_LF p) eqn:El; simpl.
    + split; [discriminate|]. intros (<- & _ & Hlf). simpl in Hlf. congruence.
    + split; [intros [= <-]|intros (<- & _); reflexivity].
      split; [reflexivity|]. split; [discriminate|exact El].
Qed.

Lemma ERR_RE_group_spec rest g :
  ERR_RE_group rest = Some g <->
  (rest = g ++ "`" \/ rest = g ++ "`" ++ String PyStr.LF EmptyString) /\
  g <> EmptyString /\ PyStr.has_LF g = false.
Proof.
  unfold ERR_RE_group. split.
  - destruct (PyStr.strip_suffix "`" rest) as [p|] eqn:E1.
    + apply strip_suffix_Some in E1. rewrite ERR_RE_group_checked.
      intros (-> & Hne & Hlf). auto.
    + destruct (PyStr.strip_suffix (String "`" (String PyStr.LF "")) rest)
        as [p|] eqn:E2; [|intros H; discriminate H].
      apply strip_suffix_Some in E2. rewrite ERR_RE_group_checked.
      intros (-> & Hne & Hlf). auto.
  - intros ([->| ->] & Hne & Hlf).
    + rewrite strip_suffix_append. apply ERR_RE_group_checked. auto.
    + rewrite strip_suffix_backtick_LF.
      change (g ++ "`" ++ String PyStr.LF EmptyString) with (g ++ String "`" (String PyStr.LF "")).
      rewrite strip_suffix_append. apply ERR_RE_group_checked. auto.
Qed.

Lemma ERR_RE_search_unfold s :
  ERR_RE_search s =
  match ERR_RE_match s with
  | Some g => Some g
  | None =>
      match s with
      | EmptyString => None
      | String _ s' => ERR_RE_search s'
      end
  end.
Proof. destruct s; reflexivity. Qed.

Lemma ERR_RE_search_Some text g : ERR_RE_search text = Some g -> path_suffix text g.
Proof.
  induction text as [|c text IH]; simpl.
  - unfold ERR_RE_match. simpl. discriminate.
  - destruct (ERR_RE_match (String c text)) as [g'|] eqn:E.
    + intros [= <-]. unfold ERR_RE_match in E.
      destruct (PyStr.strip_prefix "`$." (String c text)) as [rest|] eqn:Ep;
        [|discriminate].
      apply strip_prefix_Some in Ep. apply ERR_RE_group_spec in E as (Hrest & Hne & Hlf).
      exists EmptyString. destruct Hrest as [->| ->].
      * exists EmptyString. rewrite Ep. auto.
      * exists (String PyStr.LF EmptyString). rewrite Ep. auto.
    + intros H. destruct (IH H) as (before & tail & -> & Htail & Hne & Hlf).
      exists (String c before), tail. auto.
Qed.

Lemma ERR_RE_search_found text g :
  path_suffix text g -> exists g', ERR_RE_search text = Some g'.
Proof.
  intros (before & tail & -> & Htail & Hne & Hlf).
  induction before as [|c before IH].
  - exists g. rewrite append_nil.
    assert (Hm : ERR_RE_match ("`$." ++ g ++ "`" ++ tail) = Some g).
    { unfold ERR_RE_match.
      assert (Hp : PyStr.strip_prefix "`$." ("`$." ++ g ++ "`" ++ tail)
                   = Some (g ++ "`" ++ tail)) by (apply strip_prefix_Some; reflexivity).
      rewrite Hp. apply ERR_RE_group_spec. split; [|auto].
      destruct Htail as [->| ->]; [left|right; reflexivity].
      reflexivity. }
    rewrite ERR_RE_search_unfold, Hm. reflexivity.
  - destruct IH as (g' & IH).
    change ((String c before) ++ "`$." ++ g ++ "`" ++ tail)
      with (String c (before ++ "`$." ++ g ++ "`" ++ tail)).
    rewrite ERR_RE_search_unfold. destruct (ERR_RE_match _) as [g''|]; eauto.
Qed.

Lemma ERR_RE_search_None text :
  ERR_RE_search text = None <-> forall g, ~ path_suffix text g.
Proof.
  split.
  - intros Hnone g Hg. destruct (ERR_RE_search_found text g Hg) as (g' & Hg').
    congruence.
  - intros Hno. destruct (ERR_RE_search text) as [g|] eqn:E; [|reflexivity].
    exfalso. exact (Hno g (ERR_RE_search_Some text g E)).
Qed.

End RegexFacts.

Section ErrorFacts.

Variable ScopeType_WEBSOCKET : string.
Variable convert : gmap string Value -> SignatureModel -> ConvertOutcome.

Local Abbreviation create_exception := (_create_exception ScopeType_WEBSOCKET).
Local Abbreviation parse := (parse_values_from_connection_kwargs ScopeType_WEBSOCKET convert).

Lemma is_client_error_spec dependency_names m :
  is_client_error dependency_names m = true <-> client_visible dependency_names m.
Proof.
  unfold is_client_error, client_visible. destruct (key m) as [k|]; simpl.
  - rewrite orb_false_r, negb_true_iff, bool_decide_eq_false. split.
    + intros Hk. left. eauto.
    + intros [(k' & [= <-] & Hk)|?]; [assumption|discriminate].
  - split; [intros _; right; reflexivity | reflexivity].
Qed.

Lemma filter_is_client_error dependency_names messages :
  List.filter (is_client_error dependency_names) messages
  = filter (client_visible dependency_names) messages.
Proof.
  induction messages as [|m messages IH]; [reflexivity|].
  simpl. rewrite filter_cons, IH.
  destruct (is_client_error dependency_names m) eqn:E.
  - apply is_client_error_spec in E. rewrite decide_True by assumption. reflexivity.
  - rewrite decide_False; [reflexivity|].
    intros H. apply is_client_error_spec in H. congruence.
Qed.

Lemma create_exception_eq connection messages cls :
  create_exception connection messages cls =
  (Return
     match filter (client_visible (dependency_name_set cls)) messages with
     | [] => InternalServerException
     | (_ :: _) as client_errors =>
         ValidationException
           (validation_summary ScopeType_WEBSOCKET connection) client_errors
     end, cls).
Proof.
  unfold _create_exception, call_bind, call_read. simpl.
  rewrite filter_is_client_error.
  destruct (filter _ messages); reflexivity.
Qed.

(** The message of a built error is the first piece of the raw text. *)
Lemma build_error_message_message keys exc_msg connection cls :
  exists m,
    outcome (_build_error_message keys exc_msg connection) cls = Return m /\
    message m = List.hd EmptyString (PyStr.split exc_msg " - ").
Proof.
  unfold outcome, _build_error_message.
  destruct keys; [eexists; split; reflexivity|].
  destruct (bool_decide _); [eexists; split; reflexivity|].
  unfold call_bind, call_read. simpl.
  destruct (fields cls !! _) as [field|]; [|eexists; split; reflexivity].
  destruct (kwarg_definition field); eexists; split; reflexivity.
Qed.

(** A built error with keys: the joined key, the first piece of the text,
    the attributed source. *)
Lemma build_error_message_keyed k keys exc_msg connection cls :
  _build_error_message (k :: keys) exc_msg connection cls =
  (Return {| message := List.hd EmptyString (PyStr.split exc_msg " - ");
             key := Some (PyStr.join "." (k :: keys));
             source := attributed_source connection cls (PyStr.join "." (k :: keys)) |},
   cls).
Proof.
  unfold _build_error_message, attributed_source.
  destruct (bool_decide _); [reflexivity|].
  unfold call_bind, call_read. cbn [fst snd].
  destruct (fields cls !! _) as [field|]; [|reflexivity].
  destruct (kwarg_definition field); reflexivity.
Qed.

(** The single-message branch of [parse_values_from_connection_kwargs]:
    one message is built from the extracted path and classified. *)
Lemma parse_validation_error connection kwargs cls text :
  convert kwargs cls = RaisesValidationError text ->
  exists m e,
    outcome (_build_error_message
               [match ERR_RE_search text with Some g => g | None => "n/a" end]
               text connection) cls = Return m /\
    outcome (create_exception connection [m]) cls = Return e /\
    outcome (parse connection kwargs) cls = Raise e.
Proof.
  intros Hconv. unfold outcome, parse_values_from_connection_kwargs.
  unfold call_bind at 1, call_self. rewrite Hconv. unfold call_bind at 1.
  rewrite build_error_message_keyed. cbn [fst snd app].
  eexists. eexists. split; [reflexivity|].
  unfold call_bind. rewrite create_exception_eq. cbn [fst snd].
  split; reflexivity.
Qed.

(** C1: for every connection and every list of messages, the classifier
    takes [client_errors], the subsequence of the messages that have a key
    outside [dependency_name_set] or no key at all; when it is not empty
    the result is a ValidationException whose structured detail is exactly
    [client_errors], and otherwise it is the InternalServerException,
    which has no detail. *)
Theorem create_exception_classifies connection messages cls :
  let client_errors := filter (client_visible (dependency_name_set cls)) messages in
  client_errors `sublist_of` messages /\
  (forall m, m ∈ client_errors <->
             m ∈ messages /\ client_visible (dependency_name_set cls) m) /\
  outcome (create_exception connection messages) cls =
    Return match client_errors with
           | [] => InternalServerException
           | _ :: _ =>
               ValidationException
                 (validation_summary ScopeType_WEBSOCKET connection) client_errors
           end.
Proof.
  intros client_errors. split; [apply sublist_filter|]. split.
  - intros m. unfold client_errors. rewrite list_elem_of_filter. tauto.
  - unfold outcome. rewrite create_exception_eq. cbn [fst].
    unfold client_errors. destruct (filter _ messages); reflexivity.
Qed.

Lemma client_visible_iff dependency_names m :
  client_visible dependency_names m <-> ~ names_dependency dependency_names m.
Proof.
  unfold client_visible, names_dependency. destruct (key m) as [k|]; split.
  - intros [(k' & [= <-] & Hk)|?]; [|discriminate].
    intros (k' & [= <-] & Hk'). contradiction.
  - intros Hn. left. exists k. split; [reflexivity|]. intros Hk. apply Hn. eauto.
  - intros _ (k & ? & _). discriminate.
  - intros _. right. reflexivity.
Qed.

(** C2, as the code has it: the result is the InternalServerException
    exactly when every message has a key in [dependency_name_set]; the
    detail of a ValidationException holds the messages whose key is not in
    that set, those without a key among them; and a failure whose messages
    all lack a key gives a ValidationException with all of them. *)
Theorem create_exception_internal_iff connection messages cls :
  let dependency_names := dependency_name_set cls in
  let result := outcome (create_exception connection messages) cls in
  (result = Return InternalServerException <->
   Forall (names_dependency dependency_names) messages) /\
  (forall summary detail,
      result = Return (ValidationException summary detail) ->
      forall m, m ∈ detail <->
                m ∈ messages /\ ~ names_dependency dependency_names m) /\
  (forall m messages',
      messages = m :: messages' ->
      Forall (fun m => key m = None) messages ->
      result = Return (ValidationException
                         (validation_summary ScopeType_WEBSOCKET connection)
                         messages)).
Proof.
  intros dependency_names result. unfold result, outcome.
  rewrite create_exception_eq. cbn [fst]. fold dependency_names.
  split; [|split].
  - destruct (filter _ messages) as [|m0 l] eqn:E.
    + split; [intros _|reflexivity].
      apply Forall_forall. intros m Hm.
      destruct (decide (client_visible dependency_names m)) as [Hv|Hv].
      * exfalso. eapply filter_nil_not_elem_of; eauto.
      * rewrite client_visible_iff in Hv.
        destruct (key m) as [k|] eqn:Hk.
        -- destruct (decide (k ∈ dependency_names)) as [Hin|Hout].
           ++ exists k. rewrite Hk. auto.
           ++ exfalso. apply Hv. intros (k' & Hk' & Hin). congruence.
        -- exfalso. apply Hv. intros (k' & Hk' & _). congruence.
    + split; [discriminate|]. intros Hall. exfalso.
      assert (Hin : m0 ∈ filter (client_visible dependency_names) messages)
        by (rewrite E; left).
      apply list_elem_of_filter in Hin as [Hv Hin].
      apply client_visible_iff in Hv. apply Hv.
      rewrite Forall_forall in Hall. auto.
  - intros summary detail Hres m.
    destruct (filter _ messages) as [|m0 l] eqn:E; [discriminate|].
    injection Hres as _ <-. rewrite <- E, list_elem_of_filter, client_visible_iff.
    tauto.
  - intros m messages' -> Hall.
    assert (Hid : filter (client_visible dependency_names) (m :: messages')
                  = m :: messages').
    { induction Hall as [|x l Hx Hl IH]; [reflexivity|].
      rewrite filter_cons_True by (right; exact Hx). f_equal. exact IH. }
    rewrite Hid. reflexivity.
Qed.

(** C5: an error built with keys has the joined key, and its source is
    settled in this order: a query parameter of that name on the
    connection gives the query string, whatever the schema says of the
    field; else a field of that name declared with a parameter definition
    gives the cookie when cookie-flagged, else the header when
    header-flagged, else the query string; else there is no source. *)
Theorem build_error_message_source keys exc_msg connection cls :
  keys <> [] ->
  let key_ := PyStr.join "." keys in
  exists m,
    outcome (_build_error_message keys exc_msg connection) cls = Return m /\
    key m = Some key_ /\
    (key_ ∈ query_params connection -> source m = Some SrcQuery) /\
    (key_ ∉ query_params connection ->
     forall field attrs,
       fields cls !! key_ = Some field ->
       kwarg_definition field = ParameterKwarg attrs ->
       (cookie_flagged attrs -> source m = Some SrcCookie) /\
       (~ cookie_flagged attrs -> header_flagged attrs ->
        source m = Some SrcHeader) /\
       (~ cookie_flagged attrs -> ~ header_flagged attrs ->
        source m = Some SrcQuery)) /\
    (key_ ∉ query_params connection ->
     (forall field attrs,
         fields cls !! key_ = Some field ->
         kwarg_definition field <> ParameterKwarg attrs) ->
     source m = None).
Proof.
  intros Hkeys key_. destruct keys as [|k keys]; [contradiction|].
  unfold outcome. rewrite build_error_message_keyed. cbn [fst].
  eexists. split; [reflexivity|]. cbn [key source]. fold key_.
  split; [reflexivity|]. unfold attributed_source.
  split; [|split].
  - intros Hin. rewrite bool_decide_eq_true_2 by assumption. reflexivity.
  - intros Hout field attrs Hfield Hkind.
    rewrite bool_decide_eq_false_2 by assumption. rewrite Hfield, Hkind.
    unfold cookie_flagged, header_flagged.
    destruct (truthy (getattr attrs "cookie"));
      destruct (truthy (getattr attrs "header")); repeat split; congruence.
  - intros Hout Hnone. rewrite bool_decide_eq_false_2 by assumption.
    destruct (fields cls !! key_) as [field|] eqn:Hfield; [|reflexivity].
    destruct (kwarg_definition field) as [|attrs|attrs|skip] eqn:Hkind;
      try reflexivity.
    exfalso. exact (Hnone field attrs eq_refl Hkind).
Qed.

(** C4, as the code has it: when the text of a single-message failure has
    no path to extract, the message is built for the key ["n/a"]: its key
    is that literal, its message the text before the first separator, and
    it has no source unless ["n/a"] is the name of a query parameter or of
    a field declared with a parameter definition; the exception raised is
    the classification of that one message. *)
Theorem no_path_message_keeps_sentinel connection kwargs cls text :
  convert kwargs cls = RaisesValidationError text ->
  ERR_RE_search text = None ->
  exists m e,
    outcome (_build_error_message ["n/a"] text connection) cls = Return m /\
    key m = Some "n/a" /\
    message m = List.hd EmptyString (PyStr.split text " - ") /\
    (source m = None <->
     ("n/a" ∉ query_params connection) /\
     forall field attrs,
       fields cls !! "n/a" = Some field ->
       kwarg_definition field <> ParameterKwarg attrs) /\
    outcome (create_exception connection [m]) cls = Return e /\
    outcome (parse connection kwargs) cls = Raise e.
Proof.
  intros Hconv Hsearch.
  destruct (parse_validation_error connection kwargs cls text Hconv)
    as (m & e & Hm & He & Hparse).
  rewrite Hsearch in Hm. exists m, e.
  split; [exact Hm|].
  unfold outcome in Hm. rewrite build_error_message_keyed in Hm.
  cbn [fst] in Hm. injection Hm as <-. cbn [key message source PyStr.join].
  split; [reflexivity|]. split; [reflexivity|].
  split; [|split; assumption].
  unfold attributed_source. case_bool_decide as Hq.
  - split; [discriminate|]. intros [Hout _]. contradiction.
  - destruct (fields cls !! "n/a") as [field|]; [|split; [|reflexivity]].
    + destruct (kwarg_definition field) as [|attrs|attrs|skip] eqn:Hkind.
      * split; [|reflexivity]. intros _. split; [assumption|].
        intros f a [= <-]. congruence.
      * split; [destruct (truthy (getattr attrs "cookie")),
                          (truthy (getattr attrs "header")); discriminate|].
        intros [_ Hno]. exfalso. exact (Hno field attrs eq_refl Hkind).
      * split; [|reflexivity]. intros _. split; [assumption|].
        intros f a [= <-]. congruence.
      * split; [|reflexivity]. intros _. split; [assumption|].
        intros f a [= <-]. congruence.
    + intros _. split; [assumption|]. intros f a. discriminate.
Qed.

(** C10: when the text of a single-message failure has no path to extract
    and ["n/a"] is not a dependency name, the call raises a
    ValidationException, never the InternalServerException, and its
    detail is one message with the key ["n/a"]. *)
Theorem no_path_failure_is_client_error connection kwargs cls text :
  convert kwargs cls = RaisesValidationError text ->
  ERR_RE_search text = None ->
  "n/a" ∉ dependency_name_set cls ->
  exists m,
    key m = Some "n/a" /\
    outcome (parse connection kwargs) cls =
      Raise (ValidationException
               (validation_summary ScopeType_WEBSOCKET connection) [m]) /\
    outcome (parse connection kwargs) cls <> Raise InternalServerException.
Proof.
  intros Hconv Hsearch Hdep.
  destruct (parse_validation_error connection kwargs cls text Hconv)
    as (m & e & Hm & He & Hparse).
  rewrite Hsearch in Hm. unfold outcome in Hm, He.
  rewrite build_error_message_keyed in Hm. cbn [fst] in Hm. injection Hm as <-.
  rewrite create_exception_eq in He. cbn [fst] in He.
  rewrite filter_cons_True in He
    by (left; exists "n/a"; split; [reflexivity|assumption]).
  rewrite filter_nil in He. injection He as <-.
  eexists. split; [|split; [exact Hparse|rewrite Hparse; discriminate]].
  reflexivity.
Qed.

(** C8: the message of a built error is the text before the first
    [" - "], and the whole text when it holds no [" - "]. *)
Theorem message_is_text_before_separator keys exc_msg connection cls :
  exists m,
    outcome (_build_error_message keys exc_msg connection) cls = Return m /\
    (forall a b, first_split exc_msg " - " a b -> message m = a) /\
    ((forall a b, exc_msg <> a ++ " - " ++ b) -> message m = exc_msg).
Proof.
  destruct (build_error_message_message keys exc_msg connection cls)
    as (m & Hm & Hmsg).
  exists m. split; [exact Hm|]. rewrite Hmsg. split.
  - intros a b Hfirst. eapply split_head_first. exact Hfirst.
  - intros Hno. rewrite split_absent by exact Hno. reflexivity.
Qed.

End ErrorFacts.

(** ** Type expressions *)

Section TypeFacts.

(** Induction over type expressions that reaches the arguments of a
    union. *)
Lemma TypeExpr_nested_ind (P : TypeExpr -> Prop) :
  P TAny -> P TNoneType -> (forall n, P (TClass n)) ->
  (forall args, Forall P args -> P (TUnion args)) ->
  (forall origin metadata, P origin -> P (TAnnotated origin metadata)) ->
  forall t, P t.
Proof.
  intros HAny HNone HClass HUnion HAnn.
  fix IH 1. intros [| |n|args|origin metadata].
  - exact HAny.
  - exact HNone.
  - apply HClass.
  - apply HUnion. induction args as [|t args IHargs]; constructor.
    + apply IH.
    + exact IHargs.
  - apply HAnn. apply IH.
Qed.

Lemma TypeExpr_eqb_eq a : forall b, TypeExpr_eqb a b = true <-> a = b.
Proof.
  induction a as [| |n|args IH|origin metadata IH] using TypeExpr_nested_ind;
    intros b; destruct b as [| |m|args'|origin' metadata']; simpl;
    try (split; [discriminate|congruence]); try tauto.
  - rewrite String.eqb_eq. split; congruence.
  - revert args'. induction IH as [|t args Ht Hargs IHargs]; intros args'.
    + destruct args'; split; congruence.
    + destruct args' as [|t' args']; [split; congruence|].
      rewrite andb_true_iff, Ht, IHargs. split.
      * intros [-> [= ->]]. reflexivity.
      * intros [= -> ->]. auto.
  - rewrite andb_true_iff, IH, bool_decide_eq_true. split.
    + intros [-> ->]. reflexivity.
    + intros [= -> ->]. auto.
Qed.

Lemma elem_of_remove_dups t ts : t ∈ remove_dups ts <-> t ∈ ts.
Proof.
  induction ts as [|u ts IH]; simpl; [reflexivity|].
  rewrite !elem_of_cons, <- IH, list_elem_of_In, List.filter_In,
    <- list_elem_of_In, negb_true_iff.
  destruct (TypeExpr_eqb u t) eqn:E.
  - apply TypeExpr_eqb_eq in E. subst u. split; [intros [?|[_ ?]]|]; auto; discriminate.
  - split; [intros [?|[? _]]; auto|]. intros [->|?]; auto.
Qed.

Lemma flat_map_members_flat args :
  flat_union args -> List.flat_map members args = args.
Proof.
  induction 1 as [|t args Ht _ IH]; [reflexivity|].
  simpl. rewrite IH. destruct t; try reflexivity. discriminate.
Qed.

(** The union of arguments none of which is a union: it is built, and its
    members are the arguments. *)
Lemma Union_flat args :
  flat_union args -> args <> [] ->
  exists r, Union_ args = Return r /\ forall t, t ∈ members r <-> t ∈ args.
Proof.
  intros Hflat Hne. unfold Union_. rewrite flat_map_members_flat by assumption.
  destruct (remove_dups args) as [|t [|u ts]] eqn:E.
  - destruct args as [|t args]; [contradiction|]. discriminate.
  - exists t. split; [reflexivity|]. intros t'.
    rewrite <- (elem_of_remove_dups t' args), E.
    assert (Hin : t ∈ args) by (apply elem_of_remove_dups; rewrite E; left).
    unfold flat_union in Hflat. rewrite Forall_forall in Hflat.
    specialize (Hflat t Hin). destruct t; try reflexivity. discriminate.
  - eexists. split; [reflexivity|]. intros t'.
    rewrite <- (elem_of_remove_dups t' args), E. reflexivity.
Qed.

Lemma Annotated_is_annotated t meta :
  exists origin metadata,
    Annotated_ t meta = TAnnotated origin (metadata ++ [meta]).
Proof.
  destruct t; simpl; try (eexists _, []; reflexivity).
  eexists _, _. reflexivity.
Qed.

Lemma Annotated_carries t meta : carries meta (Annotated_ t meta).
Proof.
  destruct (Annotated_is_annotated t meta) as (origin & metadata & ->).
  exists origin, (metadata ++ [meta])%list. split; [reflexivity|].
  apply elem_of_app. right. left.
Qed.

Lemma Annotated_not_union t meta : is_TUnion (Annotated_ t meta) = false.
Proof.
  destruct (Annotated_is_annotated t meta) as (origin & metadata & ->).
  reflexivity.
Qed.

(** [Optional] of an annotated type is the union of that type and
    [NoneType]. *)
Lemma Optional_Annotated t meta :
  Optional_ (Annotated_ t meta) = Return (TUnion [Annotated_ t meta; TNoneType]).
Proof.
  destruct (Annotated_is_annotated t meta) as (origin & metadata & ->).
  reflexivity.
Qed.

Lemma unwrap_union_flat args : flat_union args -> unwrap_union (TUnion args) = args.
Proof.
  simpl. induction 1 as [|t args Ht _ IH]; [reflexivity|].
  simpl. rewrite Ht, IH. reflexivity.
Qed.

End TypeFacts.

(** ** The builder *)

Section BuilderFacts.

Variable Meta_hasattr : string -> bool.
Variable Meta_refuses : MetaKwargs -> option Exception.
Variable validate_signature_dependencies :
  gset string -> string -> ParsedSignature -> Result (gset string).
Variable create_type_overrides : ParsedSignature -> bool -> gmap string TypeExpr.

Local Abbreviation step := (meta_kwargs_step Meta_hasattr).
Local Abbreviation goes_to_Meta := (goes_to_Meta Meta_hasattr).
Local Abbreviation build := (build_meta_kwargs Meta_hasattr).
Local Abbreviation Meta_ := (Meta_ Meta_refuses).
Local Abbreviation annotate := (field_annotation Meta_hasattr Meta_refuses).
Local Abbreviation create_ :=
  (create Meta_hasattr Meta_refuses validate_signature_dependencies
     create_type_overrides).

(** The object [Meta] gives holds the arguments it was called with. *)
Lemma Meta_Return meta_kwargs meta :
  Meta_ meta_kwargs = Return meta -> meta = Meta_object meta_kwargs.
Proof.
  unfold Meta_. destruct (Meta_refuses meta_kwargs); [discriminate|].
  intros [= <-]. reflexivity.
Qed.

(** The loop over the items, entry by entry: an item that goes to [Meta]
    overwrites the argument of its name, any other item lands among the
    extras.  The loop ends unless a value is stored over the extras. *)
Lemma meta_kwargs_loop (kwarg_definition : gmap string Value) (init : MetaKwargs) :
  (forall v, kwarg_definition !! "extra" = Some v -> goes_to_Meta "extra" v = false) ->
  exists meta_kwargs,
    map_fold step (Return init) kwarg_definition = Return meta_kwargs /\
    (forall k,
        kw_args meta_kwargs !! k =
        match kwarg_definition !! k with
        | Some v => if goes_to_Meta k v then Some v else kw_args init !! k
        | None => kw_args init !! k
        end) /\
    (forall k,
        kw_extra meta_kwargs !! k =
        match kwarg_definition !! k with
        | Some v => if goes_to_Meta k v then kw_extra init !! k else Some v
        | None => kw_extra init !! k
        end).
Proof.
  apply (map_fold_weak_ind
           (fun r m =>
              (forall v, m !! "extra" = Some v -> goes_to_Meta "extra" v = false) ->
              exists meta_kwargs,
                r = Return meta_kwargs /\
                (forall k,
                    kw_args meta_kwargs !! k =
                    match m !! k with
                    | Some v => if goes_to_Meta k v then Some v else kw_args init !! k
                    | None => kw_args init !! k
                    end) /\
                (forall k,
                    kw_extra meta_kwargs !! k =
                    match m !! k with
                    | Some v => if goes_to_Meta k v then kw_extra init !! k else Some v
                    | None => kw_extra init !! k
                    end))).
  - intros _. exists init. split; [reflexivity|].
    split; intros k; rewrite lookup_empty; reflexivity.
  - intros i x m r Hfresh IH Hextra.
    destruct IH as (mk & -> & Hargs & Hext).
    { intros v Hv. apply Hextra. rewrite lookup_insert_ne; [exact Hv|].
      intros ->. congruence. }
    unfold meta_kwargs_step, bind.
    destruct (goes_to_Meta i x) eqn:Hgo.
    + destruct (String.eqb_spec i "extra") as [->|Hne].
      { rewrite (Hextra x) in Hgo; [discriminate|]. apply lookup_insert_eq. }
      eexists. split; [reflexivity|]. cbn [kw_args kw_extra].
      split; intros k; destruct (decide (i = k)) as [<-|Hik].
      * rewrite !lookup_insert_eq, Hgo. reflexivity.
      * rewrite !lookup_insert_ne by assumption. apply Hargs.
      * rewrite lookup_insert_eq, Hgo, Hext, Hfresh. reflexivity.
      * rewrite lookup_insert_ne by assumption. apply Hext.
    + eexists. split; [reflexivity|]. cbn [kw_args kw_extra].
      split; intros k; destruct (decide (i = k)) as [<-|Hik].
      * rewrite lookup_insert_eq, Hgo, Hargs, Hfresh. reflexivity.
      * rewrite lookup_insert_ne by assumption. apply Hargs.
      * rewrite !lookup_insert_eq, Hgo. reflexivity.
      * rewrite !lookup_insert_ne by assumption. apply Hext.
Qed.

(** What the code before the loop leaves under [legacy] in the dictionary
    and under [target] in [meta_kwargs]. *)
Lemma simple_asdict_lookup attrs k :
  simple_asdict attrs true !! k =
  match attrs !! k with
  | Some VEmpty => None
  | other => other
  end.
Proof.
  unfold simple_asdict. rewrite map_lookup_filter.
  destruct (attrs !! k) as [v|]; [|reflexivity]. simpl.
  destruct v; simpl; try reflexivity.
Qed.

Lemma unset_not_to_Meta attrs k v :
  unset attrs k -> simple_asdict attrs true !! k = Some v ->
  goes_to_Meta k v = false.
Proof.
  rewrite simple_asdict_lookup. unfold goes_to_Meta.
  intros [Hk|Hk]; rewrite Hk; [discriminate|].
  intros [= <-]. apply andb_false_r.
Qed.

(** C6, as the code has it: when [min_items] holds a value that counts as
    true (an integer other than zero) and the mapping holds no
    [min_length] of its own, that value is passed to [Meta] as
    [min_length], and it is the [min_length] of the constraint metadata
    whenever msgspec builds the metadata from the arguments; the same for
    [max_items] and [max_length]. *)
Theorem items_renamed_to_length (attrs : gmap string Value) :
  unset attrs "extra" ->
  exists meta_kwargs,
    build attrs = Return meta_kwargs /\
    (forall v,
        attrs !! "min_items" = Some v -> v <> VEmpty -> truthy v = true ->
        unset attrs "min_length" ->
        kw_args meta_kwargs !! "min_length" = Some v /\
        forall meta,
          Meta_ meta_kwargs = Return meta ->
          meta_constraints meta !! "min_length" = Some v) /\
    (forall v,
        attrs !! "max_items" = Some v -> v <> VEmpty -> truthy v = true ->
        unset attrs "max_length" ->
        kw_args meta_kwargs !! "max_length" = Some v /\
        forall meta,
          Meta_ meta_kwargs = Return meta ->
          meta_constraints meta !! "max_length" = Some v).
Proof.
  intros Hextra. unfold build_meta_kwargs, pop.
  set (kd := simple_asdict attrs true).
  set (min_items := default VNone (kd !! "min_items")).
  set (max_items := default VNone (delete "min_items" kd !! "max_items")).
  match goal with
  | |- context [map_fold _ (Return ?i) ?m] => set (init := i); set (kd2 := m)
  end.
  assert (Hkd2 : forall k, k <> "min_items" -> k <> "max_items" ->
                           kd2 !! k = kd !! k).
  { intros k H1 H2. unfold kd2.
    rewrite !lookup_delete_ne by congruence. reflexivity. }
  destruct (meta_kwargs_loop kd2 init) as (mk & Hfold & Hargs & _).
  { intros v Hv. rewrite Hkd2 in Hv by discriminate.
    eapply unset_not_to_Meta; eassumption. }
  exists mk. split; [exact Hfold|].
  assert (Hown : forall k, k <> "min_items" -> k <> "max_items" ->
                           unset attrs k -> kw_args mk !! k = kw_args init !! k).
  { intros k H1 H2 Hk. rewrite Hargs, Hkd2 by assumption.
    destruct (kd !! k) as [w|] eqn:Hw; [|reflexivity].
    rewrite (unset_not_to_Meta attrs k w Hk Hw). reflexivity. }
  assert (Hbuilt : forall k v,
             kw_args mk !! k = Some v ->
             kw_args mk !! k = Some v /\
             forall meta, Meta_ mk = Return meta ->
                          meta_constraints meta !! k = Some v).
  { intros k v Hk. split; [exact Hk|].
    intros meta Hmeta. apply Meta_Return in Hmeta. subst meta. exact Hk. }
  split; intros v Hv Hne Htrue Hunset; apply Hbuilt;
    rewrite Hown by (assumption || discriminate).
  - assert (Hmin : min_items = v).
    { unfold min_items, kd. rewrite simple_asdict_lookup, Hv.
      destruct v; try reflexivity. contradiction. }
    unfold init. rewrite Hmin, Htrue.
    destruct (truthy max_items); cbn [kw_args].
    + rewrite lookup_insert_ne by discriminate. apply lookup_insert_eq.
    + apply lookup_insert_eq.
  - assert (Hmax : max_items = v).
    { unfold max_items, kd.
      rewrite lookup_delete_ne by discriminate.
      rewrite simple_asdict_lookup, Hv.
      destruct v; try reflexivity. contradiction. }
    unfold init. rewrite Hmax, Htrue. cbn [kw_args]. apply lookup_insert_eq.
Qed.

Lemma is_NoneType_false t : is_NoneType t = false <-> t <> TNoneType.
Proof. destruct t; simpl; split; congruence. Qed.

(** C3: for a field with a keyword-argument definition whose annotation is
    a union.  If the field is optional, the optional wrapper is stripped
    (the inner type is the union of the members other than [NoneType]),
    the metadata is attached to the inner type, and the result is the
    optional of that annotated type; every member of the result other than
    [NoneType] carries the metadata.  If the field is a union, not
    optional, and a constraint of msgspec is among the arguments, every
    member is annotated on its own: the members of the result are the
    members of the declared union, each annotated, and each carries the
    metadata.  The metadata is the object msgspec builds from the
    arguments; when msgspec refuses them there is no metadata, and the
    builder raises what msgspec raised. *)
Theorem constraint_reaches_every_member
    (type_overrides : gmap string TypeExpr) field_definition attrs meta_kwargs
    meta args :
  as_KwargDefinition (kwarg_definition field_definition) = Some attrs ->
  build attrs = Return meta_kwargs ->
  Meta_ meta_kwargs = Return meta ->
  default (annotation field_definition)
    (type_overrides !! name field_definition) = TUnion args ->
  flat_union args ->
  (is_optional field_definition = true ->
   (exists t, t ∈ args /\ t <> TNoneType) ->
   exists inner r,
     make_non_optional_union (TUnion args) = Return inner /\
     (forall t, t ∈ members inner <-> t ∈ args /\ t <> TNoneType) /\
     annotate type_overrides field_definition = Return r /\
     r = TUnion [Annotated_ inner meta; TNoneType] /\
     (forall u, u ∈ members r -> u <> TNoneType -> carries meta u)) /\
  (is_optional field_definition = false ->
   is_union field_definition = true ->
   has_msgspec_constraint meta_kwargs = true ->
   args <> [] ->
   exists r,
     annotate type_overrides field_definition = Return r /\
     (forall u, u ∈ members r <-> exists t, t ∈ args /\ u = Annotated_ t meta) /\
     (forall u, u ∈ members r -> carries meta u)).
Proof.
  intros Hkind Hbuild Hmeta Hann Hflat. unfold field_annotation.
  rewrite Hkind, Hbuild. cbn [bind]. rewrite Hmeta, Hann. cbn [bind]. split.
  - intros -> (t0 & Hin0 & Hne0).
    set (rest := List.filter (fun t => negb (is_NoneType t)) args).
    assert (Hrest : forall t, t ∈ rest <-> t ∈ args /\ t <> TNoneType).
    { intros t. unfold rest.
      rewrite list_elem_of_In, List.filter_In, <- list_elem_of_In,
        negb_true_iff, is_NoneType_false. reflexivity. }
    destruct (Union_flat rest) as (inner & Hinner & Hmem).
    { unfold flat_union in *. rewrite Forall_forall in *.
      intros t Ht. apply Hflat. apply Hrest in Ht. tauto. }
    { intros Hnil. assert (Hin : t0 ∈ rest) by (apply Hrest; auto).
      rewrite Hnil in Hin. inversion Hin. }
    exists inner, (TUnion [Annotated_ inner meta; TNoneType]).
    unfold make_non_optional_union. cbn [get_args]. fold rest.
    rewrite Hinner. cbn [bind].
    split; [reflexivity|]. split; [|split; [apply Optional_Annotated|]].
    + intros t. rewrite Hmem. apply Hrest.
    + split; [reflexivity|]. cbn [members]. intros u Hu Hnone.
      apply elem_of_cons in Hu as [->|Hu]; [apply Annotated_carries|].
      apply list_elem_of_singleton in Hu. contradiction.
  - intros -> -> -> Hne. cbn [andb].
    rewrite unwrap_union_flat by assumption.
    destruct (Union_flat (List.map (fun t => Annotated_ t meta) args))
      as (r & Hr & Hmem).
    { unfold flat_union. apply Forall_forall. intros u Hu.
      apply list_elem_of_In, List.in_map_iff in Hu as (t & <- & _).
      apply Annotated_not_union. }
    { destruct args; [contradiction|discriminate]. }
    exists r. split; [exact Hr|].
    assert (Hiff : forall u, u ∈ members r <->
                             exists t, t ∈ args /\ u = Annotated_ t meta).
    { intros u. rewrite Hmem, list_elem_of_In, List.in_map_iff. split.
      - intros (t & <- & Ht). exists t. rewrite list_elem_of_In. auto.
      - intros (t & Ht & ->). exists t. rewrite <- list_elem_of_In. auto. }
    split; [exact Hiff|].
    intros u Hu. apply Hiff in Hu as (t & _ & ->). apply Annotated_carries.
Qed.

Lemma build_struct_fields_spec type_overrides field_definitions :
  forall acc l,
    build_struct_fields Meta_hasattr Meta_refuses type_overrides
      field_definitions acc = Return l ->
    exists triples,
      l = (acc ++ triples)%list /\
      Forall2 (fun field_definition triple =>
                 struct_field Meta_hasattr Meta_refuses type_overrides
                   field_definition
                 = Return triple)
        field_definitions triples.
Proof.
  induction field_definitions as [|fd fds IH]; intros acc l; simpl.
  - intros [= <-]. exists []. split; [symmetry; apply app_nil_r|constructor].
  - destruct (struct_field Meta_hasattr Meta_refuses type_overrides fd)
      as [triple|e] eqn:E;
      simpl; [|discriminate].
    intros H. apply IH in H as (triples & -> & Hall).
    exists (triple :: triples). split.
    + rewrite <- app_assoc. reflexivity.
    + constructor; assumption.
Qed.

Section Decode.

(** Whether the decode primitive takes a value for a field of a type;
    of that primitive only this is used: it takes every value for
    [Any]. *)
Variable accepts : TypeExpr -> Value -> bool.
Hypothesis accepts_Any : forall v, accepts TAny v = true.

(** C7: a field whose keyword-argument definition is a DependencyKwarg
    with [skip_validation] set gets the annotation [Any], whatever its
    declared annotation and its override, so the decode primitive takes
    every value for it, also one it refuses for the declared
    annotation; and the class that [create] returns has the field with
    that annotation. *)
Theorem skip_validation_field_accepts_anything
    dependency_names fn parsed_signature has_data_dto n field_definition :
  (n, field_definition) ∈ parameters parsed_signature ->
  kwarg_definition field_definition = DependencyKwarg true ->
  let type_overrides := create_type_overrides parsed_signature has_data_dto in
  exists default_,
    struct_field Meta_hasattr Meta_refuses type_overrides field_definition
    = Return (name field_definition, TAny, default_) /\
    (forall t v,
        annotate type_overrides field_definition = Return t ->
        accepts t v = true) /\
    (forall cls,
        create_ dependency_names fn parsed_signature has_data_dto = Return cls ->
        (name field_definition, TAny, default_) ∈ struct_fields cls).
Proof.
  intros Hin Hkind type_overrides.
  assert (Hann : annotate type_overrides field_definition = Return TAny).
  { unfold field_annotation. rewrite Hkind. reflexivity. }
  assert (Hfield : exists default_,
             struct_field Meta_hasattr Meta_refuses type_overrides field_definition
             = Return (name field_definition, TAny, default_)).
  { unfold struct_field. rewrite Hann. simpl. eexists. reflexivity. }
  destruct Hfield as (default_ & Hfield).
  exists default_. split; [exact Hfield|]. split.
  - intros t v Ht. rewrite Hann in Ht. injection Ht as <-. apply accepts_Any.
  - intros cls Hcreate. unfold create in Hcreate.
    destruct (validate_signature_dependencies _ _ _) as [names|e];
      simpl in Hcreate; [|discriminate].
    fold type_overrides in Hcreate.
    destruct (build_struct_fields _ _ _ _) as [l|e] eqn:Hbuild;
      simpl in Hcreate; [|discriminate].
    injection Hcreate as <-. cbn [struct_fields].
    apply build_struct_fields_spec in Hbuild as (triples & -> & Hall).
    assert (Hfd : field_definition ∈ List.map snd (parameters parsed_signature)).
    { apply list_elem_of_In, List.in_map_iff. exists (n, field_definition).
      split; [reflexivity|]. apply list_elem_of_In. exact Hin. }
    clear Hin. induction Hall as [|fd triple fds triples Hfd' _ IH].
    + inversion Hfd.
    + apply elem_of_cons in Hfd as [<-|Hfd].
      * rewrite Hfield in Hfd'. injection Hfd' as <-. left.
      * right. exact (IH Hfd).
Qed.

End Decode.

End BuilderFacts.

(** ** Examples *)

(** The classification example of the specification: with [db] injected, a
    failure on [db] alone is an internal error, and a failure on [db] and
    [limit] is a client error that lists the [limit] message only. *)
Example dependency_failure_is_internal :
  outcome (_create_exception "websocket" sample_request [db_message]) sample_model
  = Return InternalServerException.
Proof. vm_compute. reflexivity. Qed.

Example mixed_failure_lists_client_fields :
  outcome (_create_exception "websocket" sample_request [db_message; limit_message])
    sample_model
  = Return (ValidationException
              "Validation failed for GET http://testserver/items" [limit_message]).
Proof. vm_compute. reflexivity. Qed.

(** The truncation example of the specification. *)
Example message_truncation :
  exists m,
    outcome (_build_error_message [] "invalid value - additional context"
               sample_request) sample_model = Return m /\
    message m = "invalid value".
Proof. eexists. split; reflexivity. Qed.

(** The source example of the specification: [page] is a query parameter. *)
Example page_is_attributed_to_query :
  outcome (_build_error_message ["page"] path_text sample_request) sample_model
  = Return {| message := "Expected `int`, got `str`"; key := Some "page";
              source := Some SrcQuery |}.
Proof. vm_compute. reflexivity. Qed.

(** A failure text with a path gives the path as key. *)
Example path_is_extracted : ERR_RE_search path_text = Some "limit".
Proof. reflexivity. Qed.

(** [max_items=0] counts as false in the walrus test and is left out. *)
Example zero_max_items_is_left_out :
  exists meta_kwargs meta,
    build_meta_kwargs msgspec_Meta_hasattr at_most_zero_items = Return meta_kwargs /\
    Meta_ msgspec_Meta_refuses meta_kwargs = Return meta /\
    meta_constraints meta !! "max_length" = None.
Proof.
  eexists. eexists. split; [vm_compute; reflexivity|].
  split; [vm_compute; reflexivity|]. vm_compute. reflexivity.
Qed.

(** [min_items=2] with both [gt] and [ge]: the renamed value is among the
    arguments, msgspec refuses them, and no metadata is built. *)
Example refused_bounds_give_no_metadata :
  exists meta_kwargs,
    build_meta_kwargs msgspec_Meta_hasattr items_with_conflicting_bounds
    = Return meta_kwargs /\
    kw_args meta_kwargs !! "min_length" = Some (VInt 2) /\
    Meta_ msgspec_Meta_refuses meta_kwargs
    = Raise (ValueError "Cannot specify both `gt` and `ge`").
Proof.
  eexists. split; [vm_compute; reflexivity|].
  split; vm_compute; reflexivity.
Qed.

(** ** Counterexamples *)

(** C2 fails as stated: a failure whose one message has no key is a client
    error, and the message is in its detail. *)
Lemma keyless_failure_is_client_error :
  Forall (fun m => key m = None) [keyless_message] /\
  outcome (_create_exception "websocket" sample_request [keyless_message])
    sample_model
  = Return (ValidationException
              "Validation failed for GET http://testserver/items"
              [keyless_message]) /\
  outcome (_create_exception "websocket" sample_request [keyless_message])
    sample_model
  <> Return InternalServerException.
Proof.
  split; [repeat constructor|]. split; [vm_compute; reflexivity|].
  vm_compute. discriminate.
Qed.

(** C4 fails as stated: the text names no path, and the message that
    reaches the client has the key ["n/a"]. *)
Lemma no_path_message_has_key :
  ERR_RE_search no_path_text = None /\
  exists m,
    outcome (parse_values_from_connection_kwargs "websocket"
               (failing_convert no_path_text) sample_request ∅) sample_model
    = Raise (ValidationException
               "Validation failed for GET http://testserver/items" [m]) /\
    key m = Some "n/a" /\
    ~ (key m = None /\ source m = None).
Proof.
  split; [reflexivity|]. eexists. split; [vm_compute; reflexivity|].
  split; [reflexivity|]. intros [H _]. discriminate H.
Qed.

(** C6 fails as stated: [min_items] is 2, the metadata is built, and it
    has 5 under [min_length], the value of the mapping's own
    [min_length]. *)
Lemma min_items_gives_way_to_min_length :
  both_lengths !! "min_items" = Some (VInt 2) /\
  exists meta_kwargs meta,
    build_meta_kwargs msgspec_Meta_hasattr both_lengths = Return meta_kwargs /\
    Meta_ msgspec_Meta_refuses meta_kwargs = Return meta /\
    meta_constraints meta !! "min_length" = Some (VInt 5) /\
    meta_constraints meta !! "min_length" <> Some (VInt 2).
Proof.
  split; [reflexivity|]. eexists. eexists. split; [vm_compute; reflexivity|].
  split; [vm_compute; reflexivity|].
  split; [vm_compute; reflexivity|]. vm_compute. discriminate.
Qed.

(** ** The theorems at sample inputs *)

(** [token] is declared as a cookie parameter and is also the name of a
    query parameter of the request: the source is the query string. *)
Lemma build_error_message_source_witness :
  ["token"] <> [] /\
  exists m,
    outcome (_build_error_message ["token"] path_text sample_request) sample_model
    = Return m /\
    key m = Some "token" /\
    source m = Some SrcQuery.
Proof.
  split; [discriminate|].
  destruct (build_error_message_source ["token"] path_text sample_request sample_model)
    as (m & Hm & Hkey & Hquery & _); [discriminate|].
  exists m. split; [exact Hm|]. split; [exact Hkey|].
  apply Hquery. apply elem_of_union_r, elem_of_singleton. reflexivity.
Defined.

Lemma no_path_message_keeps_sentinel_witness :
  failing_convert no_path_text ∅ sample_model = RaisesValidationError no_path_text /\
  ERR_RE_search no_path_text = None /\
  exists m e,
    outcome (_build_error_message ["n/a"] no_path_text sample_request) sample_model
    = Return m /\
    key m = Some "n/a" /\
    outcome (parse_values_from_connection_kwargs "websocket"
               (failing_convert no_path_text) sample_request ∅) sample_model
    = Raise e.
Proof.
  split; [reflexivity|]. split; [reflexivity|].
  destruct (no_path_message_keeps_sentinel "websocket" (failing_convert no_path_text)
              sample_request ∅ sample_model no_path_text eq_refl eq_refl)
    as (m & e & Hm & Hkey & _ & _ & _ & Hparse).
  exists m, e. split; [exact Hm|]. split; [exact Hkey|exact Hparse].
Defined.

Lemma no_path_failure_is_client_error_witness :
  failing_convert no_path_text ∅ sample_model = RaisesValidationError no_path_text /\
  ERR_RE_search no_path_text = None /\
  ("n/a" ∉ dependency_name_set sample_model) /\
  exists m,
    key m = Some "n/a" /\
    outcome (parse_values_from_connection_kwargs "websocket"
               (failing_convert no_path_text) sample_request ∅) sample_model
    = Raise (ValidationException
               (validation_summary "websocket" sample_request) [m]).
Proof.
  assert (Hdep : "n/a" ∉ dependency_name_set sample_model).
  { intros H. change ("n/a" ∈ ({["db"]} : gset string)) in H.
    apply elem_of_singleton in H. discriminate H. }
  split; [reflexivity|]. split; [reflexivity|]. split; [exact Hdep|].
  destruct (no_path_failure_is_client_error "websocket"
              (failing_convert no_path_text) sample_request ∅ sample_model
              no_path_text eq_refl eq_refl Hdep)
    as (m & Hkey & Hparse & _).
  exists m. split; [exact Hkey|exact Hparse].
Defined.

Lemma items_renamed_to_length_witness :
  unset at_least_two_items "extra" /\
  exists meta_kwargs meta,
    build_meta_kwargs msgspec_Meta_hasattr at_least_two_items = Return meta_kwargs /\
    Meta_ msgspec_Meta_refuses meta_kwargs = Return meta /\
    kw_args meta_kwargs !! "min_length" = Some (VInt 2) /\
    meta_constraints meta !! "min_length" = Some (VInt 2) /\
    meta_constraints meta !! "max_length" = Some (VInt 7).
Proof.
  assert (Hextra : unset at_least_two_items "extra") by (left; reflexivity).
  split; [exact Hextra|].
  destruct (items_renamed_to_length msgspec_Meta_hasattr msgspec_Meta_refuses
              at_least_two_items Hextra)
    as (meta_kwargs & Hbuild & Hmin & Hmax).
  destruct (Hmin (VInt 2)) as [Hmin_kwargs Hmin_meta];
    [reflexivity|discriminate|reflexivity|left; reflexivity|].
  destruct (Hmax (VInt 7)) as [_ Hmax_meta];
    [reflexivity|discriminate|reflexivity|left; reflexivity|].
  assert (Hmeta : Meta_ msgspec_Meta_refuses meta_kwargs
                  = Return (Meta_object meta_kwargs)).
  { assert (Hsame : Return meta_kwargs
                    = build_meta_kwargs msgspec_Meta_hasattr at_least_two_items)
      by (symmetry; exact Hbuild).
    vm_compute in Hsame. injection Hsame as ->. vm_compute. reflexivity. }
  exists meta_kwargs, (Meta_object meta_kwargs).
  split; [exact Hbuild|]. split; [exact Hmeta|].
  split; [exact Hmin_kwargs|]. split; [exact (Hmin_meta _ Hmeta)|].
  exact (Hmax_meta _ Hmeta).
Defined.

Lemma constraint_reaches_every_member_witness :
  build_meta_kwargs msgspec_Meta_hasattr {["max_length" := VInt 3]}
  = Return max_length_3 /\
  flat_union [TClass "str"; TClass "int"] /\
  has_msgspec_constraint max_length_3 = true /\
  Meta_ msgspec_Meta_refuses max_length_3 = Return (Meta_object max_length_3) /\
  (exists r,
      field_annotation msgspec_Meta_hasattr msgspec_Meta_refuses ∅ union_field
      = Return r /\
      forall u, u ∈ members r -> carries (Meta_object max_length_3) u) /\
  (exists inner,
      make_non_optional_union (annotation optional_field) = Return inner /\
      field_annotation msgspec_Meta_hasattr msgspec_Meta_refuses ∅ optional_field
      = Return (TUnion [Annotated_ inner (Meta_object max_length_3); TNoneType])).
Proof.
  assert (Hmeta : Meta_ msgspec_Meta_refuses max_length_3
                  = Return (Meta_object max_length_3)) by (vm_compute; reflexivity).
  assert (Hbuild : build_meta_kwargs msgspec_Meta_hasattr {["max_length" := VInt 3]}
                   = Return max_length_3) by (vm_compute; reflexivity).
  assert (Hflat2 : flat_union [TClass "str"; TClass "int"])
    by (repeat constructor).
  assert (Hflat3 : flat_union [TClass "str"; TClass "bytes"; TNoneType])
    by (repeat constructor).
  assert (Hann2 : default (annotation union_field) ((∅ : gmap string TypeExpr) !! name union_field)
                  = TUnion [TClass "str"; TClass "int"])
    by (vm_compute; reflexivity).
  assert (Hann3 : default (annotation optional_field) ((∅ : gmap string TypeExpr) !! name optional_field)
                  = TUnion [TClass "str"; TClass "bytes"; TNoneType])
    by (vm_compute; reflexivity).
  split; [exact Hbuild|]. split; [exact Hflat2|]. split; [reflexivity|].
  split; [exact Hmeta|]. split.
  - destruct (constraint_reaches_every_member msgspec_Meta_hasattr
                msgspec_Meta_refuses ∅ union_field
                {["max_length" := VInt 3]} max_length_3 (Meta_object max_length_3)
                [TClass "str"; TClass "int"] eq_refl Hbuild Hmeta Hann2 Hflat2)
      as [_ Hunion].
    destruct Hunion as (r & Hr & _ & Hcarries);
      [reflexivity|reflexivity|reflexivity|discriminate|].
    exists r. split; [exact Hr|exact Hcarries].
  - destruct (constraint_reaches_every_member msgspec_Meta_hasattr
                msgspec_Meta_refuses ∅ optional_field
                {["max_length" := VInt 3]} max_length_3 (Meta_object max_length_3)
                [TClass "str"; TClass "bytes"; TNoneType]
                eq_refl Hbuild Hmeta Hann3 Hflat3)
      as [Hoptional _].
    destruct Hoptional as (inner & r & Hinner & _ & Hr & -> & _); [reflexivity| |].
    + exists (TClass "str"). split; [left|discriminate].
    + exists inner. split; [exact Hinner|exact Hr].
Defined.

Lemma skip_validation_field_accepts_anything_witness :
  ("db", db_field) ∈ parameters sample_signature /\
  kwarg_definition db_field = DependencyKwarg true /\
  (forall v, sample_accepts TAny v = true) /\
  sample_accepts (annotation db_field) (VStr "no number") = false /\
  exists default_,
    struct_field msgspec_Meta_hasattr msgspec_Meta_refuses ∅ db_field = Return ("db", TAny, default_) /\
    (forall t, field_annotation msgspec_Meta_hasattr msgspec_Meta_refuses ∅ db_field = Return t ->
               sample_accepts t (VStr "no number") = true) /\
    exists cls,
      create msgspec_Meta_hasattr msgspec_Meta_refuses accept_dependencies no_overrides
        {["db"]} sample_callable sample_signature false = Return cls /\
      ("db", TAny, default_) ∈ struct_fields cls.
Proof.
  assert (Hin : ("db", db_field) ∈ parameters sample_signature) by left.
  assert (Hany : forall v, sample_accepts TAny v = true) by reflexivity.
  split; [exact Hin|]. split; [reflexivity|]. split; [exact Hany|].
  split; [reflexivity|].
  destruct (skip_validation_field_accepts_anything msgspec_Meta_hasattr
              msgspec_Meta_refuses
              accept_dependencies no_overrides sample_accepts Hany
              {["db"]} sample_callable sample_signature false "db" db_field
              Hin eq_refl)
    as (default_ & Hfield & Haccepts & Hcreate).
  exists default_. split; [exact Hfield|]. split.
  - intros t Ht. exact (Haccepts t _ Ht).
  - eexists. split; [vm_compute; reflexivity|].
    apply Hcreate. vm_compute. reflexivity.
Defined.

(** * Further properties *)

(** ** Failures and their classification *)

Section MoreErrorFacts.

Variable ScopeType_WEBSOCKET : string.
Variable convert : gmap string Value -> SignatureModel -> ConvertOutcome.

Local Abbreviation create_exception := (_create_exception ScopeType_WEBSOCKET).
Local Abbreviation parse := (parse_values_from_connection_kwargs ScopeType_WEBSOCKET convert).
Local Abbreviation summary := (validation_summary ScopeType_WEBSOCKET).

Lemma build_error_message_eq keys exc_msg connection cls :
  _build_error_message keys exc_msg connection cls
  = (Return (error_message_for connection cls keys exc_msg), cls).
Proof.
  destruct keys as [|k keys]; [reflexivity|].
  apply build_error_message_keyed.
Qed.

Lemma build_messages_eq connection cls errors : forall messages,
  build_messages connection errors messages cls
  = (Return (messages ++ List.map (pydantic_message connection cls) errors)%list, cls).
Proof.
  induction errors as [|exc errors IH]; intros messages; simpl.
  - rewrite app_nil_r. reflexivity.
  - unfold call_bind. rewrite build_error_message_eq. rewrite IH.
    rewrite <- app_assoc. reflexivity.
Qed.

(** What the multi-error branch raises. *)
Lemma parse_pydantic_error connection kwargs cls errors :
  convert kwargs cls = RaisesPydanticValidationError errors ->
  exists e,
    outcome (create_exception connection
               (List.map (pydantic_message connection cls) errors)) cls = Return e /\
    outcome (parse connection kwargs) cls = Raise e.
Proof.
  intros Hconv. unfold outcome, parse_values_from_connection_kwargs.
  unfold call_bind at 1, call_self. rewrite Hconv. unfold call_bind at 1.
  rewrite build_messages_eq. cbn [app].
  unfold call_bind. rewrite create_exception_eq. cbn [fst snd].
  eexists. split; reflexivity.
Qed.

Lemma classified_cases connection messages cls e :
  outcome (create_exception connection messages) cls = Return e ->
  (e = InternalServerException /\
   filter (client_visible (dependency_name_set cls)) messages = []) \/
  (exists detail,
      detail <> [] /\
      detail = filter (client_visible (dependency_name_set cls)) messages /\
      e = ValidationException (summary connection) detail).
Proof.
  unfold outcome. rewrite create_exception_eq. cbn [fst].
  destruct (filter _ messages) as [|m l] eqn:E; intros [= <-].
  - left. auto.
  - right. exists (m :: l). split; [discriminate|]. auto.
Qed.

Lemma create_exception_classified connection messages cls :
  outcome (create_exception connection messages) cls
  = Return (classified ScopeType_WEBSOCKET connection cls messages).
Proof.
  unfold outcome, classified. rewrite create_exception_eq. cbn [fst].
  destruct (filter _ messages); reflexivity.
Qed.

(** X1: what a call does is settled by what the decode primitive did.  If
    it decoded an instance the call returns the dictionary of that
    instance, and the call returns in no other case.  If it raised one of
    the two validation errors the call raises the classification of the
    messages built from that error: the InternalServerException exactly
    when every message names an injected dependency, and otherwise the
    ValidationException whose summary names the method and the target and
    whose detail, not empty, holds the other messages, none of them with a
    dependency name as key.  Any other exception of the decode primitive
    passes through as it is. *)
Theorem parse_outcome_kinds connection kwargs cls :
  outcome (parse connection kwargs) cls
  = match convert kwargs cls with
    | Converted instance => Return (to_dict instance)
    | RaisesPydanticValidationError errors =>
        Raise (classified ScopeType_WEBSOCKET connection cls
                 (List.map (pydantic_message connection cls) errors))
    | RaisesValidationError text =>
        Raise (classified ScopeType_WEBSOCKET connection cls
                 [single_message connection cls text])
    | RaisesOther e => Raise e
    end /\
  ((exists d, outcome (parse connection kwargs) cls = Return d) <->
   exists instance, convert kwargs cls = Converted instance) /\
  (forall messages,
      classified ScopeType_WEBSOCKET connection cls messages
      = InternalServerException <->
      Forall (names_dependency (dependency_name_set cls)) messages) /\
  (forall messages,
      ~ Forall (names_dependency (dependency_name_set cls)) messages ->
      exists detail,
        classified ScopeType_WEBSOCKET connection cls messages
        = ValidationException (summary connection) detail /\
        detail <> [] /\
        detail = filter (client_visible (dependency_name_set cls)) messages /\
        forall m k, m ∈ detail -> key m = Some k -> k ∉ dependency_name_set cls).
Proof.
  assert (Hparse : outcome (parse connection kwargs) cls
    = match convert kwargs cls with
      | Converted instance => Return (to_dict instance)
      | RaisesPydanticValidationError errors =>
          Raise (classified ScopeType_WEBSOCKET connection cls
                   (List.map (pydantic_message connection cls) errors))
      | RaisesValidationError text =>
          Raise (classified ScopeType_WEBSOCKET connection cls
                   [single_message connection cls text])
      | RaisesOther e => Raise e
      end).
  { destruct (convert kwargs cls) as [instance|errors|text|e] eqn:Hconv.
    - unfold outcome, parse_values_from_connection_kwargs, call_bind, call_self.
      rewrite Hconv. reflexivity.
    - destruct (parse_pydantic_error connection kwargs cls errors Hconv)
        as (e & He & ->).
      rewrite create_exception_classified in He. injection He as <-. reflexivity.
    - destruct (parse_validation_error ScopeType_WEBSOCKET convert
                  connection kwargs cls text Hconv) as (m & e & Hm & He & ->).
      unfold outcome in Hm. rewrite build_error_message_eq in Hm.
      injection Hm as <-. rewrite create_exception_classified in He.
      injection He as <-. reflexivity.
    - unfold outcome, parse_values_from_connection_kwargs, call_bind, call_self.
      rewrite Hconv. reflexivity. }
  assert (Hinternal : forall messages,
             filter (client_visible (dependency_name_set cls)) messages = [] <->
             Forall (names_dependency (dependency_name_set cls)) messages).
  { intros messages. split.
    - intros Hnil. apply Forall_forall. intros m Hm.
      destruct (decide (client_visible (dependency_name_set cls) m)) as [Hv|Hv].
      + exfalso. eapply filter_nil_not_elem_of; eauto.
      + rewrite client_visible_iff in Hv.
        destruct (key m) as [k|] eqn:Hk.
        * destruct (decide (k ∈ dependency_name_set cls)) as [Hin|Hout].
          -- exists k. auto.
          -- exfalso. apply Hv. intros (k' & Hk' & Hin). congruence.
        * exfalso. apply Hv. intros (k' & Hk' & _). congruence.
    - intros Hall.
      destruct (filter _ messages) as [|m0 l] eqn:E; [reflexivity|]. exfalso.
      assert (Hin : m0 ∈ filter (client_visible (dependency_name_set cls)) messages)
        by (rewrite E; left).
      apply list_elem_of_filter in Hin as [Hv Hin].
      apply client_visible_iff in Hv. apply Hv.
      rewrite Forall_forall in Hall. auto. }
  split; [exact Hparse|]. split; [|split].
  - rewrite Hparse. destruct (convert kwargs cls) as [instance|errors|text|e];
      split; try (intros [d H]; discriminate H);
      try (intros [i H]; discriminate H); eauto.
  - intros messages. rewrite <- Hinternal. unfold classified.
    destruct (filter _ messages); split; (reflexivity || discriminate).
  - intros messages Hnot. rewrite <- Hinternal in Hnot. unfold classified.
    destruct (filter _ messages) as [|m0 l] eqn:E; [contradiction|].
    exists (m0 :: l). split; [reflexivity|]. split; [discriminate|].
    split; [reflexivity|].
    intros m k Hm Hk Hin. rewrite <- E in Hm.
    apply list_elem_of_filter in Hm as [Hv _].
    apply client_visible_iff in Hv. apply Hv. exists k. auto.
Qed.

(** X2: a single-message failure whose text ends in a path is classified by
    that path alone: when the path is the name of an injected dependency
    the call raises the InternalServerException, and otherwise it raises a
    ValidationException whose detail is the one message with the path as
    key, the text before the first separator as message and the source
    attributed to the path. *)
Theorem path_failure_is_classified_by_path connection kwargs cls text g :
  convert kwargs cls = RaisesValidationError text ->
  ERR_RE_search text = Some g ->
  (g ∈ dependency_name_set cls ->
   outcome (parse connection kwargs) cls = Raise InternalServerException) /\
  (g ∉ dependency_name_set cls ->
   outcome (parse connection kwargs) cls
   = Raise (ValidationException (summary connection)
              [{| message := List.hd EmptyString (PyStr.split text " - ");
                  key := Some g;
                  source := attributed_source connection cls g |}])).
Proof.
  intros Hconv Hsearch.
  destruct (parse_validation_error ScopeType_WEBSOCKET convert
              connection kwargs cls text Hconv) as (m & e & Hm & He & Hparse).
  rewrite Hsearch in Hm. unfold outcome in Hm, He.
  rewrite build_error_message_keyed in Hm. cbn [fst PyStr.join] in Hm.
  injection Hm as <-. rewrite create_exception_eq in He. cbn [fst] in He.
  rewrite Hparse. split; intros Hg.
  - rewrite filter_cons_False in He.
    + rewrite filter_nil in He. injection He as <-. reflexivity.
    + rewrite client_visible_iff. intros Hn. apply Hn. exists g. auto.
  - rewrite filter_cons_True in He by (left; exists g; auto).
    rewrite filter_nil in He. injection He as <-. reflexivity.
Qed.

(** X3: a multi-error failure gives one message for each of its errors, in
    their order, each built from the error's location and text; the call
    raises the classification of these messages, so the detail of a
    ValidationException is what is left of them, in order, once the
    messages of injected dependencies are taken out. *)
Theorem pydantic_failure_messages connection kwargs cls errors :
  convert kwargs cls = RaisesPydanticValidationError errors ->
  let messages := List.map (pydantic_message connection cls) errors in
  let detail := filter (client_visible (dependency_name_set cls)) messages in
  outcome (build_messages connection errors []) cls = Return messages /\
  length messages = length errors /\
  outcome (parse connection kwargs) cls
  = Raise match detail with
          | [] => InternalServerException
          | _ :: _ => ValidationException (summary connection) detail
          end.
Proof.
  intros Hconv messages detail. split; [|split].
  - unfold outcome. rewrite build_messages_eq. reflexivity.
  - unfold messages. apply length_map.
  - destruct (parse_pydantic_error connection kwargs cls errors Hconv)
      as (e & He & ->).
    unfold outcome in He. rewrite create_exception_eq in He. cbn [fst] in He.
    injection He as <-. fold messages. fold detail.
    destruct detail; reflexivity.
Qed.

(** X4: a multi-error failure with an error that has no location is a
    client error whatever the dependency names are: the message of that
    error has neither key nor source and is in the detail. *)
Theorem error_without_location_is_client_error connection kwargs cls errors exc :
  convert kwargs cls = RaisesPydanticValidationError errors ->
  exc ∈ errors ->
  loc exc = [] ->
  exists detail m,
    outcome (parse connection kwargs) cls
    = Raise (ValidationException (summary connection) detail) /\
    m ∈ detail /\
    m = {| message := List.hd EmptyString (PyStr.split (msg exc) " - ");
           key := None; source := None |}.
Proof.
  intros Hconv Hin Hloc.
  destruct (parse_pydantic_error connection kwargs cls errors Hconv)
    as (e & He & ->).
  set (m := pydantic_message connection cls exc).
  assert (Hm : m = {| message := List.hd EmptyString (PyStr.split (msg exc) " - ");
                      key := None; source := None |}).
  { unfold m, pydantic_message, error_message_for. rewrite Hloc. reflexivity. }
  assert (Hdetail : m ∈ filter (client_visible (dependency_name_set cls))
                          (List.map (pydantic_message connection cls) errors)).
  { apply list_elem_of_filter. split.
    - right. rewrite Hm. reflexivity.
    - apply list_elem_of_In, List.in_map, list_elem_of_In. exact Hin. }
  unfold outcome in He. rewrite create_exception_eq in He. cbn [fst] in He.
  destruct (filter _ _) as [|m0 l] eqn:E; [inversion Hdetail|].
  injection He as <-. exists (m0 :: l), m. auto.
Qed.

End MoreErrorFacts.

(** ** Texts, paths and messages *)

Section MoreStringFacts.

Lemma split_from_cons sep c s :
  PyStr.split_from sep 0 (String c s) =
  if PyStr.startswith (String c s) sep
  then EmptyString :: PyStr.split_from sep (String.length sep - 1) s
  else match PyStr.split_from sep 0 s with
       | piece :: pieces => String c piece :: pieces
       | [] => [String c EmptyString]
       end.
Proof. reflexivity. Qed.

(** The first piece is a prefix of the text. *)
Lemma split_head_prefix sep s :
  exists rest, s = List.hd EmptyString (PyStr.split s sep) ++ rest.
Proof.
  unfold PyStr.split. induction s as [|c s IH].
  - exists EmptyString. reflexivity.
  - rewrite split_from_cons. destruct (PyStr.startswith (String c s) sep).
    + exists (String c s). reflexivity.
    + pose proof (split_from_nonempty sep s 0) as Hne.
      destruct (PyStr.split_from sep 0 s) as [|p ps]; [contradiction|].
      destruct IH as (rest & IH). simpl in IH.
      exists rest. simpl. rewrite append_cons. congruence.
Qed.

(** The separator does not occur in the first piece. *)
Lemma split_head_without_separator c0 sep0 s : forall a b,
  List.hd EmptyString (PyStr.split s (String c0 sep0)) <> a ++ String c0 sep0 ++ b.
Proof.
  unfold PyStr.split. set (sep := String c0 sep0).
  induction s as [|c s IH]; intros a b.
  - simpl. destruct a; discriminate.
  - rewrite split_from_cons.
    destruct (PyStr.startswith (String c s) sep) eqn:E.
    + simpl. destruct a; discriminate.
    + pose proof (split_from_nonempty sep s 0) as Hne.
      destruct (split_head_prefix sep s) as (rest & Hrest).
      unfold PyStr.split in Hrest.
      destruct (PyStr.split_from sep 0 s) as [|p ps]; [contradiction|].
      simpl in *. intros H. destruct a as [|c' a].
      * rewrite append_nil in H.
        assert (Hs : PyStr.startswith (String c s) sep = true).
        { apply startswith_true. exists (b ++ rest).
          rewrite Hrest, <- append_cons, H, !append_assoc. reflexivity. }
        congruence.
      * rewrite append_cons in H. injection H as _ H. exact (IH a b H).
Qed.

End MoreStringFacts.

Section MoreRegexFacts.

Lemma last_char_eq : forall (a b : string) x y,
  a ++ String x "" = b ++ String y "" -> x = y.
Proof.
  induction a as [|c a IH]; intros [|d b] x y;
    rewrite ?append_nil, ?append_cons.
  - congruence.
  - intros [= _ H]. destruct b; discriminate H.
  - intros [= _ H]. destruct a; discriminate H.
  - intros [= _ H]. eapply IH; eassumption.
Qed.

(** What follows the closing backtick is settled by the text. *)
Lemma closing_tail_unique (a b tail tail' : string) :
  a ++ "`" ++ tail = b ++ "`" ++ tail' ->
  (tail = EmptyString \/ tail = String PyStr.LF EmptyString) ->
  (tail' = EmptyString \/ tail' = String PyStr.LF EmptyString) ->
  tail = tail'.
Proof.
  intros H [->| ->] [->| ->]; try reflexivity; exfalso.
  - change ("`" ++ String PyStr.LF "") with (String "`" "" ++ String PyStr.LF "") in H.
    rewrite <- (append_assoc b) in H. apply last_char_eq in H. discriminate H.
  - change ("`" ++ String PyStr.LF "") with (String "`" "" ++ String PyStr.LF "") in H.
    rewrite <- (append_assoc a) in H. apply last_char_eq in H. discriminate H.
Qed.

Lemma ERR_RE_match_Some text g :
  ERR_RE_match text = Some g <->
  exists tail,
    text = "`$." ++ g ++ "`" ++ tail /\
    (tail = EmptyString \/ tail = String PyStr.LF EmptyString) /\
    g <> EmptyString /\ PyStr.has_LF g = false.
Proof.
  unfold ERR_RE_match. split.
  - destruct (PyStr.strip_prefix "`$." text) as [rest|] eqn:Ep; [|discriminate].
    apply strip_prefix_Some in Ep. intros H.
    apply ERR_RE_group_spec in H as ([->| ->] & Hne & Hlf).
    + exists EmptyString. auto.
    + exists (String PyStr.LF EmptyString). auto.
  - intros (tail & -> & Htail & Hne & Hlf).
    assert (Hp : PyStr.strip_prefix "`$." ("`$." ++ g ++ "`" ++ tail)
                 = Some (g ++ "`" ++ tail)) by (apply strip_prefix_Some; reflexivity).
    rewrite Hp. apply ERR_RE_group_spec. split; [|auto].
    destruct Htail as [->| ->]; [left|right]; reflexivity.
Qed.

(** X5: what [ERR_RE.search] extracts.  A result is a path at the end of
    the text, between the opening backtick, dollar sign and dot and the
    closing backtick, and no such path of the text is longer (the search
    takes the leftmost opening); there is no result exactly when the text
    ends in no such path. *)
Theorem ERR_RE_search_extracts_longest_path text :
  (forall g,
      ERR_RE_search text = Some g ->
      path_suffix text g /\
      forall g', path_suffix text g' -> String.length g' <= String.length g) /\
  (ERR_RE_search text = None <-> forall g, ~ path_suffix text g).
Proof.
  split; [|apply ERR_RE_search_None].
  intros g Hg. split; [apply ERR_RE_search_Some; exact Hg|].
  revert g Hg. induction text as [|c text IH]; intros g Hg g' Hg'.
  - discriminate Hg.
  - rewrite ERR_RE_search_unfold in Hg.
    destruct (ERR_RE_match (String c text)) as [g0|] eqn:E.
    + injection Hg as ->.
      apply ERR_RE_match_Some in E as (tail & Htext & Htail & _).
      destruct Hg' as (before & tail' & Htext' & Htail' & _).
      assert (Heq : tail = tail').
      { apply (closing_tail_unique ("`$." ++ g) ((before ++ "`$.") ++ g')); auto.
        rewrite !append_assoc. rewrite <- Htext, <- Htext'. reflexivity. }
      subst tail'. apply (f_equal String.length) in Htext, Htext'.
      rewrite Htext in Htext'. rewrite !length_append in Htext'.
      simpl in Htext'. lia.
    + destruct Hg' as (before & tail' & Htext' & Htail' & Hne' & Hlf').
      destruct before as [|c' before].
      * rewrite append_nil in Htext'.
        assert (Hm : ERR_RE_match (String c text) = Some g')
          by (apply ERR_RE_match_Some; eauto).
        congruence.
      * rewrite append_cons in Htext'. injection Htext' as _ Htext'.
        apply (IH g Hg g'). exists before, tail'. auto.
Qed.

End MoreRegexFacts.

Section MoreMessageFacts.

(** X6: the message of a built error is a prefix of the raw text and holds
    no [" - "] itself. *)
Theorem message_is_prefix_without_separator keys exc_msg connection cls :
  exists m,
    outcome (_build_error_message keys exc_msg connection) cls = Return m /\
    (exists rest, exc_msg = message m ++ rest) /\
    (forall a b, message m <> a ++ " - " ++ b).
Proof.
  destruct (build_error_message_message keys exc_msg connection cls)
    as (m & Hm & Hmsg).
  exists m. split; [exact Hm|]. rewrite Hmsg. split.
  - apply split_head_prefix.
  - apply split_head_without_separator.
Qed.

(** X7: key and source of a built error.  The key is missing exactly when
    there are no keys; a message without key has no source; and the source,
    when there is one, is the cookie, the header or the query string, never
    the body. *)
Theorem source_needs_key_and_is_never_body keys exc_msg connection cls :
  exists m,
    outcome (_build_error_message keys exc_msg connection) cls = Return m /\
    (key m = None <-> keys = []) /\
    (key m = None -> source m = None) /\
    source m <> Some SrcBody.
Proof.
  destruct keys as [|k keys].
  - eexists. split; [reflexivity|]. cbn [key source].
    split; [tauto|]. split; [reflexivity|discriminate].
  - unfold outcome. rewrite build_error_message_keyed. cbn [fst].
    eexists. split; [reflexivity|]. cbn [key source].
    split; [split; discriminate|]. split; [discriminate|].
    unfold attributed_source. destruct (bool_decide _); [discriminate|].
    destruct (fields cls !! _) as [field|]; [|discriminate].
    destruct (kwarg_definition field) as [|attrs|attrs|skip]; try discriminate.
    destruct (truthy (getattr attrs "cookie")),
             (truthy (getattr attrs "header")); discriminate.
Qed.

End MoreMessageFacts.

(** ** The builder, item by item and field by field *)

Section MoreBuilderFacts.

Variable Meta_hasattr : string -> bool.
Variable Meta_refuses : MetaKwargs -> option Exception.
Variable validate_signature_dependencies :
  gset string -> string -> ParsedSignature -> Result (gset string).
Variable create_type_overrides : ParsedSignature -> bool -> gmap string TypeExpr.

Local Abbreviation goes_to_Meta := (goes_to_Meta Meta_hasattr).
Local Abbreviation build := (build_meta_kwargs Meta_hasattr).
Local Abbreviation Meta_ := (Meta_ Meta_refuses).
Local Abbreviation annotate := (field_annotation Meta_hasattr Meta_refuses).
Local Abbreviation create_ :=
  (create Meta_hasattr Meta_refuses validate_signature_dependencies
     create_type_overrides).

(** The arguments and the extras at the end of the loop, entry by entry. *)
Lemma build_meta_kwargs_lookup (attrs : gmap string Value) :
  unset attrs "extra" ->
  exists meta_kwargs,
    build attrs = Return meta_kwargs /\
    (forall k,
        kw_args meta_kwargs !! k =
        match remaining attrs k with
        | Some v => if goes_to_Meta k v then Some v else renamed attrs k
        | None => renamed attrs k
        end) /\
    (forall k,
        kw_extra meta_kwargs !! k =
        match remaining attrs k with
        | Some v => if goes_to_Meta k v then None else Some v
        | None => None
        end).
Proof.
  intros Hextra. unfold build_meta_kwargs, pop.
  set (kd := simple_asdict attrs true).
  set (min_items := default VNone (kd !! "min_items")).
  set (max_items := default VNone (delete "min_items" kd !! "max_items")).
  match goal with
  | |- context [map_fold _ (Return ?i) ?m] => set (init := i); set (kd2 := m)
  end.
  assert (Hmin : min_items = popped attrs "min_items") by reflexivity.
  assert (Hmax : max_items = popped attrs "max_items").
  { unfold max_items, popped. rewrite lookup_delete_ne by discriminate. reflexivity. }
  assert (Hkd2 : forall k, kd2 !! k = remaining attrs k).
  { intros k. unfold kd2, remaining.
    destruct (String.eqb_spec k "min_items") as [->|H1]; simpl.
    - rewrite lookup_delete_ne by discriminate. apply lookup_delete_eq.
    - destruct (String.eqb_spec k "max_items") as [->|H2].
      + apply lookup_delete_eq.
      + rewrite !lookup_delete_ne by congruence. reflexivity. }
  assert (Hinit_args : forall k, kw_args init !! k = renamed attrs k).
  { intros k. unfold init, renamed. rewrite <- Hmin, <- Hmax.
    destruct (String.eqb_spec k "max_length") as [->|H1];
      [|destruct (String.eqb_spec k "min_length") as [->|H2]];
      destruct (truthy max_items), (truthy min_items); cbn [kw_args];
      repeat first [ rewrite lookup_insert_eq
                   | rewrite lookup_insert_ne by congruence
                   | rewrite lookup_empty ];
      reflexivity. }
  assert (Hinit_extra : forall k, kw_extra init !! k = None).
  { intros k. unfold init.
    destruct (truthy max_items), (truthy min_items); apply lookup_empty. }
  destruct (meta_kwargs_loop Meta_hasattr kd2 init) as (mk & Hfold & Hargs & Hext).
  { intros v Hv. rewrite Hkd2 in Hv. unfold remaining in Hv. simpl in Hv.
    eapply unset_not_to_Meta; eassumption. }
  exists mk. split; [exact Hfold|]. split; intros k.
  - rewrite Hargs, Hkd2. destruct (remaining attrs k) as [v|].
    + destruct (goes_to_Meta k v); [reflexivity|apply Hinit_args].
    + apply Hinit_args.
  - rewrite Hext, Hkd2. destruct (remaining attrs k) as [v|].
    + destruct (goes_to_Meta k v); [apply Hinit_extra|reflexivity].
    + apply Hinit_extra.
Qed.

Lemma remaining_Some attrs k v :
  remaining attrs k = Some v <->
  k <> "min_items" /\ k <> "max_items" /\ attrs !! k = Some v /\ v <> VEmpty.
Proof.
  unfold remaining. rewrite simple_asdict_lookup.
  destruct (String.eqb_spec k "min_items") as [->|H1]; simpl.
  { split; [discriminate|tauto]. }
  destruct (String.eqb_spec k "max_items") as [->|H2]; simpl.
  { split; [discriminate|tauto]. }
  destruct (attrs !! k) as [w|]; [|split; [discriminate|intros (_ & _ & H & _); discriminate H]].
  destruct w; split; try discriminate;
    try (intros [= <-]; repeat split; congruence);
    try (intros (_ & _ & [= <-] & H); congruence).
Qed.


Lemma renamed_Some attrs k v :
  renamed attrs k = Some v ->
  (k = "max_length" \/ k = "min_length") /\ truthy v = true.
Proof.
  unfold renamed.
  destruct (String.eqb_spec k "max_length") as [->|H1].
  - destruct (truthy (popped attrs "max_items")) eqn:E; [|discriminate].
    intros [= <-]. auto.
  - destruct (String.eqb_spec k "min_length") as [->|H2]; [|discriminate].
    destruct (truthy (popped attrs "min_items")) eqn:E; [|discriminate].
    intros [= <-]. auto.
Qed.

Lemma goes_to_Meta_not_None k v : goes_to_Meta k v = true -> v <> VNone.
Proof.
  unfold goes_to_Meta. intros H ->. simpl in H.
  rewrite andb_false_r in H. discriminate H.
Qed.

(** X8: how the loop splits the mapping.  The extras are exactly the items
    of the mapping, other than [min_items] and [max_items] and those that
    hold [Empty], that [Meta] has no attribute for or that hold [None]; an
    item that [Meta] has an attribute for and that holds a value is an
    argument of [Meta] and no extra; and no argument of [Meta] is [None] or
    is named [min_items] or [max_items]. *)
Theorem items_are_split_between_Meta_and_extra (attrs : gmap string Value) :
  unset attrs "extra" ->
  exists meta_kwargs,
    build attrs = Return meta_kwargs /\
    (forall k v,
        kw_extra meta_kwargs !! k = Some v <->
        k <> "min_items" /\ k <> "max_items" /\
        attrs !! k = Some v /\ v <> VEmpty /\ goes_to_Meta k v = false) /\
    (forall k v,
        k <> "min_items" -> k <> "max_items" ->
        attrs !! k = Some v -> v <> VEmpty -> goes_to_Meta k v = true ->
        kw_args meta_kwargs !! k = Some v /\ kw_extra meta_kwargs !! k = None) /\
    (forall k v,
        kw_args meta_kwargs !! k = Some v ->
        v <> VNone /\ k <> "min_items" /\ k <> "max_items").
Proof.
  clear Meta_refuses. intros Hextra.
  destruct (build_meta_kwargs_lookup attrs Hextra) as (mk & Hbuild & Hargs & Hext).
  exists mk. split; [exact Hbuild|]. split; [|split].
  - intros k v. rewrite Hext. split.
    + destruct (remaining attrs k) as [w|] eqn:Hw; [|discriminate].
      destruct (goes_to_Meta k w) eqn:Hgo; [discriminate|].
      intros [= <-]. apply remaining_Some in Hw. tauto.
    + intros (H1 & H2 & Hk & Hne & Hgo).
      assert (Hw : remaining attrs k = Some v) by (apply remaining_Some; auto).
      rewrite Hw, Hgo. reflexivity.
  - intros k v H1 H2 Hk Hne Hgo.
    assert (Hw : remaining attrs k = Some v) by (apply remaining_Some; auto).
    rewrite Hargs, Hext, Hw, Hgo. auto.
  - intros k v. rewrite Hargs.
    destruct (remaining attrs k) as [w|] eqn:Hw.
    + apply remaining_Some in Hw as (H1 & H2 & _).
      destruct (goes_to_Meta k w) eqn:Hgo.
      * intros [= <-]. split; [eapply goes_to_Meta_not_None; eassumption|auto].
      * intros Hr. apply renamed_Some in Hr as [_ Ht].
        split; [intros ->; discriminate Ht|auto].
    + intros Hr. apply renamed_Some in Hr as [Hk Ht].
      split; [intros ->; discriminate Ht|].
      destruct Hk as [->| ->]; split; discriminate.
Qed.

Lemma unset_remaining attrs k v :
  unset attrs k -> remaining attrs k = Some v -> goes_to_Meta k v = false.
Proof.
  intros Hk Hv. apply remaining_Some in Hv as (_ & _ & Hv & _).
  destruct Hk as [Hk|Hk]; rewrite Hk in Hv; [discriminate|].
  injection Hv as <-. apply andb_false_r.
Qed.

Lemma popped_eq attrs k v :
  attrs !! k = Some v -> popped attrs k = match v with VEmpty => VNone | _ => v end.
Proof.
  intros Hv. unfold popped. rewrite simple_asdict_lookup, Hv.
  destruct v; reflexivity.
Qed.

(** X9: a [min_items] or [max_items] that counts as false (zero, as well
    as [None]) leaves no trace: when the mapping has no [min_length] of its
    own, [Meta] is called without [min_length], and [min_items] is neither
    an argument nor an extra; so the metadata msgspec builds from the
    arguments has no [min_length] and no [min_items]; the same for
    [max_items] and [max_length]. *)
Theorem falsy_items_leave_no_trace (attrs : gmap string Value) :
  unset attrs "extra" ->
  exists meta_kwargs,
    build attrs = Return meta_kwargs /\
    (forall v,
        attrs !! "min_items" = Some v -> truthy v = false ->
        unset attrs "min_length" ->
        (kw_args meta_kwargs !! "min_length" = None /\
         kw_args meta_kwargs !! "min_items" = None /\
         kw_extra meta_kwargs !! "min_items" = None) /\
        forall meta,
          Meta_ meta_kwargs = Return meta ->
          meta_constraints meta !! "min_length" = None /\
          meta_constraints meta !! "min_items" = None /\
          meta_extra meta !! "min_items" = None) /\
    (forall v,
        attrs !! "max_items" = Some v -> truthy v = false ->
        unset attrs "max_length" ->
        (kw_args meta_kwargs !! "max_length" = None /\
         kw_args meta_kwargs !! "max_items" = None /\
         kw_extra meta_kwargs !! "max_items" = None) /\
        forall meta,
          Meta_ meta_kwargs = Return meta ->
          meta_constraints meta !! "max_length" = None /\
          meta_constraints meta !! "max_items" = None /\
          meta_extra meta !! "max_items" = None).
Proof.
  intros Hextra.
  destruct (build_meta_kwargs_lookup attrs Hextra) as (mk & Hbuild & Hargs & Hext).
  exists mk. split; [exact Hbuild|].
  assert (Hbuilt : forall k1 k2 k3,
             kw_args mk !! k1 = None /\ kw_args mk !! k2 = None /\
             kw_extra mk !! k3 = None ->
             (kw_args mk !! k1 = None /\ kw_args mk !! k2 = None /\
              kw_extra mk !! k3 = None) /\
             forall meta,
               Meta_ mk = Return meta ->
               meta_constraints meta !! k1 = None /\
               meta_constraints meta !! k2 = None /\
               meta_extra meta !! k3 = None).
  { intros k1 k2 k3 H. split; [exact H|]. intros meta Hmeta.
    rewrite (Meta_Return Meta_refuses mk meta Hmeta). exact H. }
  split; intros v Hv Hfalse Hunset; apply Hbuilt; rewrite !Hargs, Hext.
  - assert (Hpop : truthy (popped attrs "min_items") = false).
    { rewrite (popped_eq attrs _ v Hv). destruct v; try exact Hfalse; reflexivity. }
    split; [|split; reflexivity].
    assert (Hren : renamed attrs "min_length" = None)
      by (unfold renamed; simpl; rewrite Hpop; reflexivity).
    destruct (remaining attrs "min_length") as [w|] eqn:Hw; [|exact Hren].
    rewrite (unset_remaining attrs _ w Hunset Hw). exact Hren.
  - assert (Hpop : truthy (popped attrs "max_items") = false).
    { rewrite (popped_eq attrs _ v Hv). destruct v; try exact Hfalse; reflexivity. }
    split; [|split; reflexivity].
    assert (Hren : renamed attrs "max_length" = None)
      by (unfold renamed; simpl; rewrite Hpop; reflexivity).
    destruct (remaining attrs "max_length") as [w|] eqn:Hw; [|exact Hren].
    rewrite (unset_remaining attrs _ w Hunset Hw). exact Hren.
Qed.

(** X10: the mapping's own [min_length] wins: when it holds a value and
    [Meta] has the attribute, that value is what [Meta] is called with as
    [min_length], whatever [min_items] holds, and it is the [min_length]
    of the metadata whenever msgspec builds the metadata from the
    arguments; the same for [max_length]. *)
Theorem own_length_overrides_items (attrs : gmap string Value) :
  unset attrs "extra" ->
  exists meta_kwargs,
    build attrs = Return meta_kwargs /\
    (forall w,
        attrs !! "min_length" = Some w -> w <> VNone -> w <> VEmpty ->
        Meta_hasattr "min_length" = true ->
        kw_args meta_kwargs !! "min_length" = Some w /\
        forall meta,
          Meta_ meta_kwargs = Return meta ->
          meta_constraints meta !! "min_length" = Some w) /\
    (forall w,
        attrs !! "max_length" = Some w -> w <> VNone -> w <> VEmpty ->
        Meta_hasattr "max_length" = true ->
        kw_args meta_kwargs !! "max_length" = Some w /\
        forall meta,
          Meta_ meta_kwargs = Return meta ->
          meta_constraints meta !! "max_length" = Some w).
Proof.
  intros Hextra.
  destruct (build_meta_kwargs_lookup attrs Hextra) as (mk & Hbuild & Hargs & _).
  exists mk. split; [exact Hbuild|].
  assert (Hbuilt : forall k v,
             kw_args mk !! k = Some v ->
             kw_args mk !! k = Some v /\
             forall meta, Meta_ mk = Return meta ->
                          meta_constraints meta !! k = Some v).
  { intros k v Hk. split; [exact Hk|].
    intros meta Hmeta.
    apply (Meta_Return Meta_refuses) in Hmeta. subst meta. exact Hk. }
  split; intros w Hw Hnone Hempty Hattr; apply Hbuilt; rewrite Hargs.
  - assert (Hr : remaining attrs "min_length" = Some w)
      by (apply remaining_Some; repeat split; (discriminate || assumption)).
    rewrite Hr. unfold goes_to_Meta. rewrite Hattr.
    destruct w; try reflexivity. contradiction.
  - assert (Hr : remaining attrs "max_length" = Some w)
      by (apply remaining_Some; repeat split; (discriminate || assumption)).
    rewrite Hr. unfold goes_to_Meta. rewrite Hattr.
    destruct w; try reflexivity. contradiction.
Qed.


Lemma has_msgspec_constraint_true meta_kwargs :
  has_msgspec_constraint meta_kwargs = true <->
  exists k, k ∈ MSGSPEC_CONSTRAINT_FIELDS /\ is_Some (kw_args meta_kwargs !! k).
Proof.
  unfold has_msgspec_constraint. rewrite List.existsb_exists. split.
  - intros (k & Hin & Hk). exists k. rewrite list_elem_of_In.
    split; [exact Hin|]. apply bool_decide_eq_true in Hk. exact Hk.
  - intros (k & Hin & Hk). exists k. rewrite <- list_elem_of_In.
    split; [exact Hin|]. apply bool_decide_eq_true. exact Hk.
Qed.

(** X11: when the definition counts as constrained, which is what makes
    the builder annotate the members of a union one by one: exactly when
    one of the fields of [MSGSPEC_CONSTRAINT_FIELDS] holds a value that
    goes to [Meta], or [min_items] or [max_items] holds a value that counts
    as true. *)
Theorem constrained_iff (attrs : gmap string Value) :
  unset attrs "extra" ->
  exists meta_kwargs,
    build attrs = Return meta_kwargs /\
    (has_msgspec_constraint meta_kwargs = true <->
     (exists k v,
         k ∈ MSGSPEC_CONSTRAINT_FIELDS /\ attrs !! k = Some v /\
         v <> VEmpty /\ goes_to_Meta k v = true) \/
     truthy (popped attrs "min_items") = true \/
     truthy (popped attrs "max_items") = true).
Proof.
  clear Meta_refuses. intros Hextra.
  destruct (build_meta_kwargs_lookup attrs Hextra) as (mk & Hbuild & Hargs & _).
  exists mk. split; [exact Hbuild|]. rewrite has_msgspec_constraint_true. split.
  - intros (k & Hin & v & Hv). rewrite Hargs in Hv.
    destruct (remaining attrs k) as [w|] eqn:Hw.
    + destruct (goes_to_Meta k w) eqn:Hgo.
      * left. exists k, w. apply remaining_Some in Hw. tauto.
      * right. unfold renamed in Hv.
        destruct (String.eqb k "max_length");
          [destruct (truthy (popped attrs "max_items")); [auto|discriminate]|].
        destruct (String.eqb k "min_length"); [|discriminate].
        destruct (truthy (popped attrs "min_items")); [auto|discriminate].
    + right. unfold renamed in Hv.
      destruct (String.eqb k "max_length");
        [destruct (truthy (popped attrs "max_items")); [auto|discriminate]|].
      destruct (String.eqb k "min_length"); [|discriminate].
      destruct (truthy (popped attrs "min_items")); [auto|discriminate].
  - intros [(k & v & Hin & Hv & Hne & Hgo)|[Hmin|Hmax]].
    + exists k. split; [exact Hin|]. rewrite Hargs.
      assert (Hw : remaining attrs k = Some v).
      { apply remaining_Some. repeat split; try assumption.
        - intros ->. repeat (apply elem_of_cons in Hin as [Hin|Hin];
                              [discriminate Hin|]). inversion Hin.
        - intros ->. repeat (apply elem_of_cons in Hin as [Hin|Hin];
                              [discriminate Hin|]). inversion Hin. }
      rewrite Hw, Hgo. eauto.
    + exists "min_length". split; [repeat constructor|]. rewrite Hargs.
      assert (Hr : renamed attrs "min_length" = Some (popped attrs "min_items"))
        by (unfold renamed; simpl; rewrite Hmin; reflexivity).
      destruct (remaining attrs "min_length") as [w|];
        [destruct (goes_to_Meta "min_length" w)|]; rewrite ?Hr; eauto.
    + exists "max_length". split; [repeat constructor|]. rewrite Hargs.
      assert (Hr : renamed attrs "max_length" = Some (popped attrs "max_items"))
        by (unfold renamed; simpl; rewrite Hmax; reflexivity).
      destruct (remaining attrs "max_length") as [w|];
        [destruct (goes_to_Meta "max_length" w)|]; rewrite ?Hr; eauto.
Qed.

(** Members of a union built from arguments none of which is a union. *)
Lemma Union_members_of_flat args r :
  flat_union args -> Union_ args = Return r ->
  forall t, t ∈ members r -> t ∈ args.
Proof.
  intros Hflat Hr. destruct args as [|a args]; [discriminate Hr|].
  destruct (Union_flat (a :: args) Hflat) as (r' & Hr' & Hmem); [discriminate|].
  rewrite Hr in Hr'. injection Hr' as <-. intros t. apply Hmem.
Qed.

(** X12: no branch of the builder leaves the metadata out.  For a field
    with a keyword-argument definition, whenever the annotation is built,
    msgspec has built the metadata from the arguments, and every member of
    the annotation other than [NoneType] carries it: the annotated inner
    type of an optional field, each member of a union that is annotated
    member by member, and the annotated type itself in the remaining
    case. *)
Theorem metadata_is_never_left_out
    (type_overrides : gmap string TypeExpr) field_definition attrs meta_kwargs t :
  as_KwargDefinition (kwarg_definition field_definition) = Some attrs ->
  build attrs = Return meta_kwargs ->
  annotate type_overrides field_definition = Return t ->
  Meta_ meta_kwargs = Return (Meta_object meta_kwargs) /\
  forall u,
    u ∈ members t -> u <> TNoneType -> carries (Meta_object meta_kwargs) u.
Proof.
  intros Hkind Hbuild. unfold field_annotation. rewrite Hkind, Hbuild. cbn [bind].
  destruct (Meta_ meta_kwargs) as [meta|e] eqn:Hmeta; [|discriminate].
  pose proof (Meta_Return Meta_refuses _ _ Hmeta) as ->.
  cbn [bind]. set (meta := Meta_object meta_kwargs).
  set (annotation_ := default _ _).
  intros Ht. split; [reflexivity|]. revert Ht.
  destruct (is_optional field_definition).
  - destruct (make_non_optional_union annotation_) as [inner|e]; [|discriminate].
    cbn [bind]. rewrite Optional_Annotated. intros [= <-] u Hu Hnone.
    cbn [members] in Hu. apply elem_of_cons in Hu as [->|Hu];
      [apply Annotated_carries|].
    apply list_elem_of_singleton in Hu. contradiction.
  - destruct (is_union field_definition && has_msgspec_constraint meta_kwargs).
    + intros Hr u Hu _.
      assert (Hflat : flat_union
                        (List.map (fun inner_type => Annotated_ inner_type meta)
                           (unwrap_union annotation_))).
      { unfold flat_union. apply Forall_forall. intros x Hx.
        apply list_elem_of_In, List.in_map_iff in Hx as (y & <- & _).
        apply Annotated_not_union. }
      apply (Union_members_of_flat _ _ Hflat Hr) in Hu.
      apply list_elem_of_In, List.in_map_iff in Hu as (y & <- & _).
      apply Annotated_carries.
    + intros [= <-] u Hu _.
      destruct (Annotated_is_annotated annotation_ meta) as (o & ms & Heq).
      rewrite Heq in Hu. cbn [members] in Hu.
      apply list_elem_of_singleton in Hu. subst u. rewrite <- Heq.
      apply Annotated_carries.
Qed.


Lemma struct_field_shape type_overrides field_definition :
  struct_field Meta_hasattr Meta_refuses type_overrides field_definition =
  match annotate type_overrides field_definition with
  | Return t => Return (name field_definition, t, field_default field_definition)
  | Raise e => Raise e
  end.
Proof.
  unfold struct_field, field_default.
  destruct (annotate type_overrides field_definition); reflexivity.
Qed.

Lemma create_Return dependency_names fn parsed_signature has_data_dto cls :
  create_ dependency_names fn parsed_signature has_data_dto = Return cls ->
  exists names,
    validate_signature_dependencies dependency_names
      (match dunder_name fn with
       | Some n =>
           if PyStr.truthy n && negb (String.eqb n "<lambda>") then n
           else "anonymous"
       | None => "anonymous"
       end) parsed_signature = Return names /\
    build_struct_fields Meta_hasattr Meta_refuses
      (create_type_overrides parsed_signature has_data_dto)
      (List.map snd (parameters parsed_signature)) [] = Return (struct_fields cls) /\
    dependency_name_set cls = names /\
    fields cls = list_to_map (parameters parsed_signature) /\
    return_annotation cls = annotation (return_type parsed_signature).
Proof.
  unfold create. intros H.
  destruct (validate_signature_dependencies _ _ _) as [names|e];
    simpl in H; [|discriminate].
  destruct (build_struct_fields _ _ _ _) as [l|e]; simpl in H; [|discriminate].
  injection H as <-. exists names. auto.
Qed.









(** X16: a refusal of msgspec stops the builder.  When [Meta] refuses the
    arguments built from the keyword-argument definition of a parameter,
    the annotation of that parameter raises what msgspec raised, whether
    the parameter is optional, a union or neither, and [create] returns no
    class for a signature with that parameter. *)
Theorem refused_metadata_stops_create
    dependency_names fn parsed_signature has_data_dto
    n field_definition attrs meta_kwargs e :
  (n, field_definition) ∈ parameters parsed_signature ->
  as_KwargDefinition (kwarg_definition field_definition) = Some attrs ->
  build attrs = Return meta_kwargs ->
  Meta_refuses meta_kwargs = Some e ->
  annotate (create_type_overrides parsed_signature has_data_dto) field_definition
  = Raise e /\
  exists e',
    create_ dependency_names fn parsed_signature has_data_dto = Raise e'.
Proof.
  intros Hin Hkind Hbuild Hrefused.
  assert (Hann : annotate (create_type_overrides parsed_signature has_data_dto)
                   field_definition = Raise e).
  { unfold field_annotation, Meta_. rewrite Hkind, Hbuild. cbn [bind].
    rewrite Hrefused. reflexivity. }
  split; [exact Hann|].
  destruct (create_ dependency_names fn parsed_signature has_data_dto)
    as [cls|e'] eqn:Hcreate; [|eauto].
  exfalso. apply create_Return in Hcreate as (_ & _ & Hfields & _).
  apply build_struct_fields_spec in Hfields as (triples & _ & Hall).
  assert (Hfd : field_definition ∈ List.map snd (parameters parsed_signature)).
  { apply list_elem_of_In, List.in_map_iff. exists (n, field_definition).
    split; [reflexivity|]. apply list_elem_of_In. exact Hin. }
  clear Hin. induction Hall as [|fd triple fds triples' Hfd' _ IH].
  - inversion Hfd.
  - apply elem_of_cons in Hfd as [<-|Hfd]; [|exact (IH Hfd)].
    rewrite struct_field_shape, Hann in Hfd'. discriminate Hfd'.
Qed.

End MoreBuilderFacts.

(** ** The further theorems at sample inputs *)

Lemma path_failure_is_classified_by_path_witness :
  failing_convert path_text ∅ sample_model = RaisesValidationError path_text /\
  ERR_RE_search path_text = Some "limit" /\
  ("limit" ∉ dependency_name_set sample_model) /\
  outcome (parse_values_from_connection_kwargs "websocket"
             (failing_convert path_text) sample_request ∅) sample_model
  = Raise (ValidationException
             (validation_summary "websocket" sample_request)
             [{| message := List.hd EmptyString (PyStr.split path_text " - ");
                 key := Some "limit";
                 source := attributed_source sample_request sample_model "limit" |}]).
Proof.
  assert (Hdep : "limit" ∉ dependency_name_set sample_model).
  { intros H. change ("limit" ∈ ({["db"]} : gset string)) in H.
    apply elem_of_singleton in H. discriminate H. }
  split; [reflexivity|]. split; [reflexivity|]. split; [exact Hdep|].
  destruct (path_failure_is_classified_by_path "websocket"
              (failing_convert path_text) sample_request ∅ sample_model
              path_text "limit" eq_refl eq_refl) as [_ Hclient].
  exact (Hclient Hdep).
Defined.

Lemma pydantic_failure_messages_witness :
  failing_with_errors sample_errors ∅ sample_model
  = RaisesPydanticValidationError sample_errors /\
  outcome (build_messages sample_request sample_errors []) sample_model
  = Return (List.map (pydantic_message sample_request sample_model) sample_errors) /\
  length (List.map (pydantic_message sample_request sample_model) sample_errors) = 3.
Proof.
  split; [reflexivity|].
  destruct (pydantic_failure_messages "websocket" (failing_with_errors sample_errors)
              sample_request ∅ sample_model sample_errors eq_refl)
    as (Hmessages & Hlength & _).
  split; [exact Hmessages|exact Hlength].
Defined.

Lemma error_without_location_is_client_error_witness :
  failing_with_errors sample_errors ∅ sample_model
  = RaisesPydanticValidationError sample_errors /\
  unlocated_error ∈ sample_errors /\
  loc unlocated_error = [] /\
  exists detail,
    outcome (parse_values_from_connection_kwargs "websocket"
               (failing_with_errors sample_errors) sample_request ∅) sample_model
    = Raise (ValidationException
               (validation_summary "websocket" sample_request) detail) /\
    {| message := "value too short"; key := None; source := None |} ∈ detail.
Proof.
  assert (Hin : unlocated_error ∈ sample_errors) by (right; right; left).
  split; [reflexivity|]. split; [exact Hin|]. split; [reflexivity|].
  destruct (error_without_location_is_client_error "websocket"
              (failing_with_errors sample_errors) sample_request ∅ sample_model
              sample_errors unlocated_error eq_refl Hin eq_refl)
    as (detail & m & Hparse & Hm & ->).
  exists detail. split; [exact Hparse|exact Hm].
Defined.

Lemma items_are_split_between_Meta_and_extra_witness :
  unset titled_positive "extra" /\
  exists meta_kwargs,
    build_meta_kwargs msgspec_Meta_hasattr titled_positive = Return meta_kwargs /\
    kw_args meta_kwargs !! "gt" = Some (VInt 0) /\
    kw_extra meta_kwargs !! "required" = Some VNone.
Proof.
  assert (Hextra : unset titled_positive "extra") by (left; reflexivity).
  split; [exact Hextra|].
  destruct (items_are_split_between_Meta_and_extra msgspec_Meta_hasattr
              titled_positive Hextra) as (meta_kwargs & Hbuild & Hext & Hargs & _).
  exists meta_kwargs. split; [exact Hbuild|]. split.
  - apply (Hargs "gt" (VInt 0));
      [discriminate|discriminate|reflexivity|discriminate|reflexivity].
  - apply Hext. repeat split; (discriminate || reflexivity).
Defined.

Lemma falsy_items_leave_no_trace_witness :
  unset at_most_zero_items "extra" /\
  at_most_zero_items !! "max_items" = Some (VInt 0) /\
  truthy (VInt 0) = false /\
  unset at_most_zero_items "max_length" /\
  exists meta_kwargs meta,
    build_meta_kwargs msgspec_Meta_hasattr at_most_zero_items = Return meta_kwargs /\
    Meta_ msgspec_Meta_refuses meta_kwargs = Return meta /\
    kw_args meta_kwargs !! "max_length" = None /\
    meta_constraints meta !! "max_length" = None.
Proof.
  assert (Hextra : unset at_most_zero_items "extra") by (left; reflexivity).
  assert (Hlen : unset at_most_zero_items "max_length") by (left; reflexivity).
  split; [exact Hextra|]. split; [reflexivity|]. split; [reflexivity|].
  split; [exact Hlen|].
  destruct (falsy_items_leave_no_trace msgspec_Meta_hasattr msgspec_Meta_refuses
              at_most_zero_items Hextra)
    as (meta_kwargs & Hbuild & _ & Hmax).
  assert (Hsame : build_meta_kwargs msgspec_Meta_hasattr at_most_zero_items
                  = Return {| kw_args := ∅; kw_extra := ∅ |})
    by (vm_compute; reflexivity).
  rewrite Hsame in Hbuild. injection Hbuild as <-.
  assert (Hmeta : Meta_ msgspec_Meta_refuses {| kw_args := ∅; kw_extra := ∅ |}
                  = Return (Meta_object {| kw_args := ∅; kw_extra := ∅ |}))
    by (vm_compute; reflexivity).
  exists {| kw_args := ∅; kw_extra := ∅ |}, (Meta_object {| kw_args := ∅; kw_extra := ∅ |}).
  split; [exact Hsame|]. split; [exact Hmeta|].
  destruct (Hmax (VInt 0) eq_refl eq_refl Hlen) as [[H _] Hbuilt].
  split; [exact H|]. destruct (Hbuilt _ Hmeta) as [H' _]. exact H'.
Defined.

Lemma own_length_overrides_items_witness :
  unset both_lengths "extra" /\
  both_lengths !! "min_items" = Some (VInt 2) /\
  both_lengths !! "min_length" = Some (VInt 5) /\
  msgspec_Meta_hasattr "min_length" = true /\
  exists meta_kwargs meta,
    build_meta_kwargs msgspec_Meta_hasattr both_lengths = Return meta_kwargs /\
    Meta_ msgspec_Meta_refuses meta_kwargs = Return meta /\
    kw_args meta_kwargs !! "min_length" = Some (VInt 5) /\
    meta_constraints meta !! "min_length" = Some (VInt 5).
Proof.
  assert (Hextra : unset both_lengths "extra") by (left; reflexivity).
  split; [exact Hextra|]. split; [reflexivity|]. split; [reflexivity|].
  split; [reflexivity|].
  destruct (own_length_overrides_items msgspec_Meta_hasattr msgspec_Meta_refuses
              both_lengths Hextra)
    as (meta_kwargs & Hbuild & Hmin & _).
  destruct (Hmin (VInt 5)) as [Hkwargs Hmeta_min];
    [reflexivity|discriminate|discriminate|reflexivity|].
  assert (Hmeta : Meta_ msgspec_Meta_refuses meta_kwargs
                  = Return (Meta_object meta_kwargs)).
  { assert (Hsame : Return meta_kwargs
                    = build_meta_kwargs msgspec_Meta_hasattr both_lengths)
      by (symmetry; exact Hbuild).
    vm_compute in Hsame. injection Hsame as ->. vm_compute. reflexivity. }
  exists meta_kwargs, (Meta_object meta_kwargs).
  split; [exact Hbuild|]. split; [exact Hmeta|].
  split; [exact Hkwargs|exact (Hmeta_min _ Hmeta)].
Defined.

Lemma constrained_iff_witness :
  unset at_least_two_items "extra" /\
  truthy (popped at_least_two_items "min_items") = true /\
  exists meta_kwargs,
    build_meta_kwargs msgspec_Meta_hasattr at_least_two_items = Return meta_kwargs /\
    has_msgspec_constraint meta_kwargs = true.
Proof.
  assert (Hextra : unset at_least_two_items "extra") by (left; reflexivity).
  assert (Hmin : truthy (popped at_least_two_items "min_items") = true)
    by (vm_compute; reflexivity).
  split; [exact Hextra|]. split; [exact Hmin|].
  destruct (constrained_iff msgspec_Meta_hasattr at_least_two_items Hextra)
    as (meta_kwargs & Hbuild & Hiff).
  exists meta_kwargs. split; [exact Hbuild|].
  apply Hiff. right. left. exact Hmin.
Defined.

Lemma metadata_is_never_left_out_witness :
  as_KwargDefinition (kwarg_definition union_field)
  = Some {["max_length" := VInt 3]} /\
  build_meta_kwargs msgspec_Meta_hasattr {["max_length" := VInt 3]}
  = Return max_length_3 /\
  exists t,
    field_annotation msgspec_Meta_hasattr msgspec_Meta_refuses ∅ union_field
    = Return t /\
    Meta_ msgspec_Meta_refuses max_length_3 = Return (Meta_object max_length_3) /\
    forall u,
      u ∈ members t -> u <> TNoneType -> carries (Meta_object max_length_3) u.
Proof.
  assert (Hbuild : build_meta_kwargs msgspec_Meta_hasattr {["max_length" := VInt 3]}
                   = Return max_length_3) by (vm_compute; reflexivity).
  split; [reflexivity|]. split; [exact Hbuild|].
  eexists. split; [vm_compute; reflexivity|].
  apply (metadata_is_never_left_out msgspec_Meta_hasattr msgspec_Meta_refuses ∅
           union_field {["max_length" := VInt 3]} max_length_3 _ eq_refl Hbuild).
  vm_compute. reflexivity.
Defined.



Lemma refused_metadata_stops_create_witness :
  ("value", conflicting_field) ∈ parameters conflicting_signature /\
  as_KwargDefinition (kwarg_definition conflicting_field) = Some conflicting_bounds /\
  build_meta_kwargs msgspec_Meta_hasattr conflicting_bounds
  = Return conflicting_kwargs /\
  msgspec_Meta_refuses conflicting_kwargs
  = Some (ValueError "Cannot specify both `gt` and `ge`") /\
  field_annotation msgspec_Meta_hasattr msgspec_Meta_refuses ∅ conflicting_field
  = Raise (ValueError "Cannot specify both `gt` and `ge`") /\
  exists e,
    create msgspec_Meta_hasattr msgspec_Meta_refuses accept_dependencies
      no_overrides ∅ sample_callable conflicting_signature false = Raise e.
Proof.
  assert (Hin : ("value", conflicting_field) ∈ parameters conflicting_signature)
    by left.
  assert (Hbuild : build_meta_kwargs msgspec_Meta_hasattr conflicting_bounds
                   = Return conflicting_kwargs) by (vm_compute; reflexivity).
  assert (Hrefused : msgspec_Meta_refuses conflicting_kwargs
                     = Some (ValueError "Cannot specify both `gt` and `ge`"))
    by (vm_compute; reflexivity).
  split; [exact Hin|]. split; [reflexivity|]. split; [exact Hbuild|].
  split; [exact Hrefused|].
  exact (refused_metadata_stops_create msgspec_Meta_hasattr msgspec_Meta_refuses
           accept_dependencies no_overrides ∅ sample_callable conflicting_signature
           false "value" conflicting_field conflicting_bounds conflicting_kwargs _
           Hin eq_refl Hbuild Hrefused).
Defined.
